(** * HyperGraphRAG: the text-to-JSON segmentation engine and the chunker

    A shallow embedding of [convert_book_to_json.py] (normaliser, boundary
    detector, segmenter, aggregator, command-line driver) and of
    [chunk_text] from [script_construct.py], with the properties the
    specification states about them. *)

From Stdlib Require Import NArith ZArith Lia Bool.
From stdpp Require Import base list strings pretty sorting gmap.

Set Default Proof Using "Type".

(** ** Python strings

    A Python [str] is a sequence of Unicode code points. *)

Definition char := N.
Definition str := list char.

(** An ASCII literal as a Python string. *)
Definition S_ (s : string) : str :=
  map (fun a => N.of_nat (Ascii.nat_of_ascii a)) (String.list_ascii_of_string s).

Abbreviation ch_newline := 10%N (only parsing).
Abbreviation ch_space := 32%N (only parsing).
Abbreviation ch_underscore := 95%N (only parsing).
(** U+27EA and U+27EB, the two marker brackets of [clean_text]. *)
Abbreviation ch_open := 10218%N (only parsing).
Abbreviation ch_close := 10219%N (only parsing).

Definition in_range (lo hi c : char) : bool := (lo <=? c)%N && (c <=? hi)%N.

(** [str.isspace] on one code point; the same table decides [\s] in [re],
    [str.strip()] and [str.split()]. *)
Definition is_space (c : char) : bool :=
  (in_range 9 13 c || in_range 28 32 c || (c =? 133) || (c =? 160)
   || (c =? 5760) || in_range 8192 8202 c || (c =? 8232) || (c =? 8233)
   || (c =? 8239) || (c =? 8287) || (c =? 12288))%N.

Definition is_upper_AZ (c : char) : bool := in_range 65%N 90%N c.
Definition is_lower_az (c : char) : bool := in_range 97%N 122%N c.
Definition is_digit_09 (c : char) : bool := in_range 48%N 57%N c.

(** The punctuation listed in the last character class of [clean_text]:
    full stop, comma, exclamation and question mark, semicolon, colon,
    apostrophe, double quote (U+0022), the two parentheses and the hyphen. *)
Definition is_kept_punct (c : char) : bool :=
  existsb (N.eqb c) (S_ ".,!?;:'" ++ [34%N] ++ S_ "()-").

(** [len(s)]. *)
Definition len (s : str) : nat := length s.

(** [s.lstrip()], [s.rstrip()], [s.strip()]. *)
Fixpoint lstrip (s : str) : str :=
  match s with
  | c :: s' => if is_space c then lstrip s' else s
  | [] => []
  end.
Definition rstrip (s : str) : str := rev (lstrip (rev s)).
Definition strip (s : str) : str := rstrip (lstrip s).

(** [s.split(sep)] for a one-character separator: never the empty list. *)
Fixpoint split_on (sep : char) (s : str) : list str :=
  match s with
  | [] => [[]]
  | c :: s' =>
      if (c =? sep)%N then [] :: split_on sep s'
      else match split_on sep s' with
           | l :: ls => (c :: l) :: ls
           | [] => [[c]]
           end
  end.

(** [s.split()]: the maximal runs of non-whitespace, in order.  [w] is the
    word being read. *)
Fixpoint split_from (w : str) (s : str) : list str :=
  match s with
  | [] => match w with [] => [] | _ => [w] end
  | c :: s' =>
      if is_space c
      then match w with [] => split_from [] s' | _ => w :: split_from [] s' end
      else split_from (w ++ [c]) s'
  end.
Definition split (s : str) : list str := split_from [] s.

(** [sep.join(parts)]. *)
Fixpoint join (sep : str) (parts : list str) : str :=
  match parts with
  | [] => []
  | [p] => p
  | p :: ps => p ++ sep ++ join sep ps
  end.

(** ** The part of the Unicode database the code reads through [re]

    [\w] is [str.isalnum] or an underscore and [\d] is [str.isdecimal];
    below U+0080 both are the ASCII classes, above it they are tables of the
    interpreter, taken as parameters. *)

Record unicode_db := {
  uni_isalnum : char -> bool;
  uni_isdecimal : char -> bool
}.

(** The database of an interpreter that knows no letter or digit beyond
    ASCII; every concrete run below is on ASCII text, where it agrees with
    any other. *)
Definition ascii_db : unicode_db :=
  {| uni_isalnum := fun _ => false; uni_isdecimal := fun _ => false |}.

Section Unicode.
Variable db : unicode_db.

Definition isalnum (c : char) : bool :=
  if (c <? 128)%N then is_upper_AZ c || is_lower_az c || is_digit_09 c
  else uni_isalnum db c.
Definition isdecimal (c : char) : bool :=
  if (c <? 128)%N then is_digit_09 c else uni_isdecimal db c.

(** [\w] of [re] on [str] patterns. *)
Definition is_word (c : char) : bool := isalnum c || (c =? ch_underscore)%N.

(** ** [clean_text] *)

(** [re.sub(r'\s+', ' ', s)]: every maximal run of whitespace becomes one
    space (emitted when the run ends). *)
Fixpoint sub_ws_runs (s : str) : str :=
  match s with
  | [] => []
  | c :: s' =>
      if is_space c
      then match s' with
           | c' :: _ => if is_space c' then sub_ws_runs s'
                        else ch_space :: sub_ws_runs s'
           | [] => [ch_space]
           end
      else c :: sub_ws_runs s'
  end.

(** [re.sub(r'⟪[^⟫]*⟫', '', s)]: scanning left to right, an opening bracket
    that has a closing bracket somewhere after it starts a match, which runs
    to the first closing bracket; an opening bracket with no closing bracket
    after it matches nothing and stays.  [inside] is true within a match. *)
Fixpoint sub_marked (inside : bool) (s : str) : str :=
  match s with
  | [] => []
  | c :: s' =>
      if inside
      then if (c =? ch_close)%N then sub_marked false s' else sub_marked true s'
      else if (c =? ch_open)%N && existsb (N.eqb ch_close) s'
           then sub_marked true s'
           else c :: sub_marked false s'
  end.

(** The negated class of the last substitution: neither [\w], nor [\s], nor
    one of the listed punctuation characters. *)
Definition is_special (c : char) : bool :=
  negb (is_word c || is_space c || is_kept_punct c).

(** The last [re.sub]: every character of that class is deleted. *)
Definition sub_special (s : str) : str := List.filter (fun c => negb (is_special c)) s.

Definition clean_text (text : str) : str :=
  let text := sub_ws_runs (strip text) in
  let text := sub_marked false text in
  let text := sub_special text in
  text.

(** ** Regular expressions, as far as the detectors use them

    The heading patterns are built from character classes, concatenation and
    repetition; a pattern either ends in [$] or not.  They have no group
    reference or look-around, so [re.match] succeeds exactly when some
    prefix of the line is in the pattern's language, decided here with
    derivatives. *)

Inductive regex :=
| Void
| Eps
| Cls (p : char -> bool)
| Seq (r1 r2 : regex)
| Alt (r1 r2 : regex)
| Star (r : regex).

Fixpoint nullable (r : regex) : bool :=
  match r with
  | Void => false
  | Eps => true
  | Cls _ => false
  | Seq r1 r2 => nullable r1 && nullable r2
  | Alt r1 r2 => nullable r1 || nullable r2
  | Star _ => true
  end.

Fixpoint deriv (c : char) (r : regex) : regex :=
  match r with
  | Void => Void
  | Eps => Void
  | Cls p => if p c then Eps else Void
  | Seq r1 r2 =>
      if nullable r1 then Alt (Seq (deriv c r1) r2) (deriv c r2)
      else Seq (deriv c r1) r2
  | Alt r1 r2 => Alt (deriv c r1) (deriv c r2)
  | Star r1 => Seq (deriv c r1) (Star r1)
  end.

(** The whole of [s] is in the language of [r]. *)
Fixpoint matches_whole (r : regex) (s : str) : bool :=
  match s with
  | [] => nullable r
  | c :: s' => matches_whole (deriv c r) s'
  end.

(** Some prefix of [s] is in the language of [r]. *)
Fixpoint matches_prefix (r : regex) (s : str) : bool :=
  nullable r ||
  match s with
  | [] => false
  | c :: s' => matches_prefix (deriv c r) s'
  end.

(** The language of a regular expression, to check the matcher against. *)
Inductive lang : regex -> str -> Prop :=
| lang_eps : lang Eps []
| lang_cls p c : p c = true -> lang (Cls p) [c]
| lang_seq r1 r2 s1 s2 : lang r1 s1 -> lang r2 s2 -> lang (Seq r1 r2) (s1 ++ s2)
| lang_alt_l r1 r2 s : lang r1 s -> lang (Alt r1 r2) s
| lang_alt_r r1 r2 s : lang r2 s -> lang (Alt r1 r2) s
| lang_star_nil r : lang (Star r) []
| lang_star_more r s1 s2 : lang r s1 -> lang (Star r) s2 -> lang (Star r) (s1 ++ s2).

(** A pattern [^body] or [^body$]. *)
Record pattern := { body : regex; dollar : bool }.

(** [re.match(p, s)] as a truth value.  Without flags [$] holds at the end of
    the string and just before a newline that ends the string. *)
Definition re_match (p : pattern) (s : str) : bool :=
  if dollar p
  then matches_whole (body p) s
       || match last s with
          | Some c => (c =? ch_newline)%N && matches_whole (body p) (removelast s)
          | None => false
          end
  else matches_prefix (body p) s.

(** A literal word, [r+] and [r{n,}]. *)
Fixpoint lit (s : str) : regex :=
  match s with
  | [] => Eps
  | c :: s' => Seq (Cls (N.eqb c)) (lit s')
  end.
Definition plus (r : regex) : regex := Seq r (Star r).
Fixpoint at_least (n : nat) (r : regex) : regex :=
  match n with
  | O => Star r
  | S n' => Seq r (at_least n' r)
  end.

Definition cls_AZ : regex := Cls is_upper_AZ.
(** [[A-Z\s]] and [[a-z\s]]. *)
Definition cls_AZ_s : regex := Cls (fun c => is_upper_AZ c || is_space c).
Definition cls_az_s : regex := Cls (fun c => is_lower_az c || is_space c).
Definition cls_s : regex := Cls is_space.
Definition cls_d : regex := Cls isdecimal.

(** [^[A-Z][a-z\s]{n,}$] *)
Definition pat_title_case (n : nat) : pattern :=
  {| body := Seq cls_AZ (at_least n cls_az_s); dollar := true |}.
(** [^word\s+\d+] *)
Definition pat_numbered (word : string) : pattern :=
  {| body := Seq (lit (S_ word)) (Seq (plus cls_s) (plus cls_d)); dollar := false |}.
(** [^[A-Z][A-Z\s]+$] *)
Definition pat_all_caps : pattern :=
  {| body := Seq cls_AZ (plus cls_AZ_s); dollar := true |}.
(** [^[A-Z][a-z\s]+:$] *)
Definition pat_title_colon : pattern :=
  {| body := Seq cls_AZ (Seq (plus cls_az_s) (Cls (N.eqb 58%N))); dollar := true |}.

(** ** Boundary detection *)

(** One detected heading: the dict with keys [title], [line] and
    [start_content] (both 1-based). *)
Record marker := {
  m_title : str;
  m_line : nat;
  m_start_content : nat
}.

Definition section_patterns : list pattern :=
  [ pat_all_caps;
    pat_title_colon;
    pat_numbered "Chapter";
    pat_numbered "Part";
    pat_numbered "Section";
    pat_numbered "Story";
    pat_title_case 10 ].

Definition story_indicators : list pattern :=
  [ pat_title_case 15;
    pat_numbered "Chapter";
    pat_numbered "Part";
    pat_numbered "Story";
    pat_all_caps ].

(** The inner [for pattern in ...: if re.match(pattern, line): ...; break]:
    the first pattern that matches, if any. *)
Definition first_match (patterns : list pattern) (line : str) : option pattern :=
  List.find (fun p => re_match p line) patterns.

(** The [while] loop that moves [content_start] over blank lines: [rest] is
    [lines[content_start:]]. *)
Fixpoint skip_blank (content_start : nat) (rest : list str) : nat :=
  match rest with
  | l :: rest' =>
      match strip l with
      | [] => skip_blank (S content_start) rest'
      | _ => content_start
      end
  | [] => content_start
  end.

(** The body of [detect_section_patterns]'s loop from line index [i] on;
    [rest] is [lines[i:]]. *)
Fixpoint section_loop (i : nat) (rest : list str) : list marker :=
  match rest with
  | [] => []
  | raw :: rest' =>
      let line := strip raw in
      match line with
      | [] => section_loop (S i) rest'
      | _ =>
          match first_match section_patterns line with
          | Some _ =>
              let content_start := skip_blank (i + 1) rest' in
              {| m_title := line; m_line := i + 1;
                 m_start_content := content_start + 1 |}
              :: section_loop (S i) rest'
          | None => section_loop (S i) rest'
          end
      end
  end.

Definition detect_section_patterns (content : str) : list marker :=
  let lines := split_on ch_newline content in
  section_loop 0 lines.

(** The body of [detect_story_boundaries]'s loop; [nlines] is
    [len(lines)]. *)
Fixpoint story_loop (nlines : nat) (i : nat) (rest : list str) : list marker :=
  match rest with
  | [] => []
  | raw :: rest' =>
      let line := strip raw in
      if match line with [] => true | _ => false end || (len line <? 10)
      then story_loop nlines (S i) rest'
      else
        match first_match story_indicators line with
        | Some _ =>
            let content_start := skip_blank (i + 1) rest' in
            if (Z.of_nat content_start <? Z.of_nat nlines - 10)%Z
            then {| m_title := line; m_line := i + 1;
                    m_start_content := content_start + 1 |}
                 :: story_loop nlines (S i) rest'
            else story_loop nlines (S i) rest'
        | None => story_loop nlines (S i) rest'
        end
  end.

Definition detect_story_boundaries (content : str) : list marker :=
  let lines := split_on ch_newline content in
  story_loop (length lines) 0 lines.

(** ** Segmentation *)

Inductive section_type := story | content.

(** One entry of the [sections] list. *)
Record section := {
  s_type : section_type;
  s_title : str;
  s_content : str;
  s_start_line : nat;
  s_end_line : nat;
  s_word_count : nat;
  s_character_count : nat
}.

(** [lines[start:end]] for indices that are not negative. *)
Definition slice {A} (l : list A) (start_ end_ : nat) : list A :=
  take (end_ - start_) (drop start_ l).

(** The loop over [enumerate(stories)]; [stories[i + 1]] is the head of the
    rest. *)
Fixpoint sections_loop (lines : list str) (stories : list marker) : list section :=
  match stories with
  | [] => []
  | story_ :: rest =>
      let start_line := m_start_content story_ - 1 in
      let end_line :=
        match rest with
        | next :: _ => m_start_content next - 1
        | [] => length lines
        end in
      let story_lines := slice lines start_line end_line in
      let story_content := join [ch_newline] story_lines in
      let cleaned_content := clean_text story_content in
      if length (split cleaned_content) <? 50
      then sections_loop lines rest
      else {| s_type := story;
              s_title := m_title story_;
              s_content := cleaned_content;
              s_start_line := start_line + 1;
              s_end_line := end_line;
              s_word_count := length (split cleaned_content);
              s_character_count := len cleaned_content |}
           :: sections_loop lines rest
  end.

Definition extract_content_sections (content_ : str) : list section :=
  let lines := split_on ch_newline content_ in
  let stories := detect_story_boundaries content_ in
  let stories :=
    match stories with
    | [] => detect_section_patterns content_
    | _ => stories
    end in
  match stories with
  | [] =>
      [ {| s_type := content;
           s_title := S_ "Full Content";
           s_content := clean_text content_;
           s_start_line := 1;
           s_end_line := length lines;
           s_word_count := length (split (clean_text content_));
           s_character_count := len (clean_text content_) |} ]
  | _ => sections_loop lines stories
  end.

End Unicode.


(** ** Aggregation *)

Record metadata := {
  md_title : str;
  md_source_file : str;
  md_total_sections : nat;
  md_stories : nat;
  md_conversion_date : str;
  md_conversion_notes : str
}.

Record statistics := {
  st_total_sections : nat;
  st_stories : nat;
  st_total_words : nat;
  st_total_characters : nat
}.

Record book_json := {
  bj_metadata : metadata;
  bj_sections : list section;
  bj_statistics : statistics
}.

Definition is_story (s : section) : bool :=
  match s_type s with story => true | content => false end.

(** [sum(f(s) for s in sections)]. *)
Definition sum_of (f : section -> nat) (sections : list section) : nat :=
  foldr (fun s acc => f s + acc) 0 sections.

(** [s.replace(a, b)] for single characters. *)
Definition replace_char (a b : char) (s : str) : str :=
  map (fun c => if (c =? a)%N then b else c) s.

(** ** The interpreter's library, and the world the driver runs in

    [Path(p).stem], [str.title()], the UTF-8 codec, [json.dump]/[json.load]
    and [str(e)] belong to the interpreter; the driver is modelled over
    them. *)

(** The exceptions the driver can meet.  [OSError] stands for the errors of
    [open] other than a missing file or directory (permission, a directory
    in place of a file). *)
Inductive exn :=
| FileNotFoundError (filename : str)
| OSError (filename : str)
| UnicodeDecodeError
| UnicodeEncodeError
| JSONDecodeError.

Record runtime := {
  rt_unicode : unicode_db;
  path_stem : str -> str;
  str_title : str -> str;
  decode_utf8 : list N -> option str;
  (* [None]: the text cannot be encoded, [UnicodeEncodeError] *)
  encode_utf8 : str -> option (list N);
  (* the pieces [json.dump] passes to [f.write], one at a time *)
  json_chunks_book : book_json -> list str;
  json_chunks_section : section -> list str;
  json_loads_book : str -> option book_json;
  exn_message : exn -> str
}.

(** The world the driver runs in: how a path, as spelled, resolves to a file
    (two spellings may name one file); the content of the files that exist;
    the files that [open(path, 'w')] refuses, with the error it raises (a
    missing directory is [FileNotFoundError]); and what has been printed,
    one entry per [print] call. *)
Record world := {
  locate : str -> list N;
  files : gmap (list N) (list N);
  denied : gmap (list N) exn;
  stdout : list str
}.

Definition with_files (fs : gmap (list N) (list N)) (w : world) : world :=
  {| locate := locate w; files := fs; denied := denied w; stdout := stdout w |}.
Definition with_stdout (out : list str) (w : world) : world :=
  {| locate := locate w; files := files w; denied := denied w; stdout := out |}.

(** Computations that read and change the world and may raise. *)
Definition M (A : Type) : Type := world -> (exn + A) * world.

Global Instance M_ret : MRet M := fun A a w => (inr a, w).
Global Instance M_bind : MBind M := fun A B k m w =>
  match m w with
  | (inl e, w') => (inl e, w')
  | (inr a, w') => k a w'
  end.

Definition raise {A} (e : exn) : M A := fun w => (inl e, w).

(** [try: m except ...: h e]; a handler that does not apply re-raises. *)
Definition try_except {A} (m : M A) (h : exn -> M A) : M A := fun w =>
  match m w with
  | (inl e, w') => h e w'
  | (inr a, w') => (inr a, w')
  end.

Definition print (s : str) : M unit := fun w =>
  (inr tt, with_stdout (stdout w ++ [s]) w).

(** Text mode reads with universal newlines: CR LF and a lone CR arrive as
    LF. *)
Fixpoint universal_newlines (s : str) : str :=
  match s with
  | [] => []
  | c :: s' =>
      if (c =? 13)%N
      then match s' with
           | c' :: _ => if (c' =? 10)%N then universal_newlines s'
                        else ch_newline :: universal_newlines s'
           | [] => [ch_newline]
           end
      else c :: universal_newlines s'
  end.

(** [latin-1] maps every byte to the code point of the same number. *)
Definition decode_latin1 (bytes : list N) : option str := Some bytes.

(** [with open(path, 'r', encoding=...) as f: f.read()]. *)
Definition read_text (decode : list N -> option str) (path : str) : M str := fun w =>
  match files w !! locate w path with
  | None => (inl (FileNotFoundError path), w)
  | Some bytes =>
      match decode bytes with
      | Some s => (inr (universal_newlines s), w)
      | None => (inl UnicodeDecodeError, w)
      end
  end.

Section Driver.
Variable rt : runtime.

(** [open(path, 'w', encoding='utf-8')]: raises when the file is refused,
    and otherwise creates the file or empties it. *)
Definition open_write (path : str) : M unit := fun w =>
  match denied w !! locate w path with
  | Some e => (inl e, w)
  | None => (inr tt, with_files (<[locate w path := []]> (files w)) w)
  end.

(** [f.write(chunk)]: the chunk is encoded, or the write raises; what was
    written before stays in the file, which the [with] block closes. *)
Definition write_chunk (path : str) (chunk : str) : M unit := fun w =>
  match encode_utf8 rt chunk with
  | None => (inl UnicodeEncodeError, w)
  | Some bytes =>
      (inr tt,
       with_files (<[locate w path :=
                       default [] (files w !! locate w path) ++ bytes]> (files w)) w)
  end.

Fixpoint write_chunks (path : str) (chunks : list str) : M unit :=
  match chunks with
  | [] => mret tt
  | chunk :: rest => write_chunk path chunk ;; write_chunks path rest
  end.

(** [with open(path, 'w', encoding='utf-8') as f: json.dump(obj, f, ...)],
    given the chunks that [json.dump] produces for [obj]: the dump is
    streamed into the file at its final path. *)
Definition json_dump (path : str) (chunks : list str) : M unit :=
  open_write path ;; write_chunks path chunks.

Definition str_of_nat (n : nat) : str := S_ (pretty n).

Definition create_book_metadata (input_file : str) (sections : list section) : metadata :=
  let title := str_title rt (replace_char ch_underscore ch_space (path_stem rt input_file)) in
  {| md_title := title;
     md_source_file := input_file;
     md_total_sections := length sections;
     md_stories := length (List.filter is_story sections);
     md_conversion_date := S_ "2024";
     md_conversion_notes :=
       S_ "Converted from text format to structured JSON using automatic section detection" |}.

(** The structured document that [convert_book_to_json] assembles from the
    text it has read. *)
Definition assemble (input_file : str) (content_ : str) : book_json :=
  let sections := extract_content_sections (rt_unicode rt) content_ in
  let metadata := create_book_metadata input_file sections in
  {| bj_metadata := metadata;
     bj_sections := sections;
     bj_statistics :=
       {| st_total_sections := length sections;
          st_stories := length (List.filter is_story sections);
          st_total_words := sum_of s_word_count sections;
          st_total_characters := sum_of s_character_count sections |} |}.

Definition convert_book_to_json (input_file output_file : str) : M unit :=
  print (S_ "Reading text from: " ++ input_file) ;;
  content_ ← try_except (read_text (decode_utf8 rt) input_file)
              (fun e => match e with
                        | UnicodeDecodeError => read_text decode_latin1 input_file
                        | _ => raise e
                        end) ;
  print (S_ "Analyzing content structure...") ;;
  let book := assemble input_file content_ in
  let sections := bj_sections book in
  print (S_ "Writing structured JSON to: " ++ output_file) ;;
  json_dump output_file (json_chunks_book rt book) ;;
  print (S_ "Conversion completed successfully!") ;;
  print (S_ "Total sections processed: " ++ str_of_nat (length sections)) ;;
  print (S_ "Total words: " ++ str_of_nat (st_total_words (bj_statistics book))) ;;
  print (S_ "Total characters: " ++ str_of_nat (st_total_characters (bj_statistics book))).

(** The parsed command line. *)
Record args := {
  a_input_file : str;
  a_output : option str;
  a_individual : bool
}.

(** [re.sub(r'[-\s]+', '_', s)]: every maximal run of hyphens and
    whitespace becomes one underscore. *)
Fixpoint sub_sep_runs (s : str) : str :=
  let sep c := (c =? 45)%N || is_space c in
  match s with
  | [] => []
  | c :: s' =>
      if sep c
      then match s' with
           | c' :: _ => if sep c' then sub_sep_runs s'
                        else ch_underscore :: sub_sep_runs s'
           | [] => [ch_underscore]
           end
      else c :: sub_sep_runs s'
  end.

Definition safe_title (title : str) : str :=
  let kept c := is_word (rt_unicode rt) c || is_space c || (c =? 45)%N in
  sub_sep_runs (List.filter kept title).

(** The loop that writes one file per section. *)
Fixpoint write_sections (sections : list section) : M unit :=
  match sections with
  | [] => mret tt
  | section_ :: rest =>
      let section_file := S_ "section_" ++ safe_title (s_title section_) ++ S_ ".json" in
      json_dump section_file (json_chunks_section rt section_) ;;
      print (S_ "Created: " ++ section_file) ;;
      write_sections rest
  end.

Definition main (a : args) : M unit :=
  let output_file :=
    match a_output a with
    | Some (c :: o) => c :: o
    | _ => path_stem rt (a_input_file a) ++ S_ "_structured.json"
    end in
  try_except
    (convert_book_to_json (a_input_file a) output_file ;;
     (if a_individual a
      then
        print (ch_newline :: S_ "Creating individual section files...") ;;
        text ← read_text (decode_utf8 rt) output_file ;
        book_data ← match json_loads_book rt text with
                    | Some b => mret b
                    | None => raise JSONDecodeError
                    end ;
        write_sections (bj_sections book_data)
      else mret tt) ;;
     print (ch_newline :: S_ "Conversion completed!") ;;
     print (S_ "Main structured file: " ++ output_file) ;;
     (if a_individual a
      then print (S_ "Individual section files: section_*.json")
      else mret tt))
    (fun e =>
       match e with
       | FileNotFoundError _ =>
           print (S_ "Error: Could not find input file '" ++ a_input_file a ++ S_ "'") ;;
           print (S_ "Please make sure the file exists and the path is correct.")
       | _ => print (S_ "Error during conversion: " ++ exn_message rt e)
       end).

End Driver.

(** ** [chunk_text] of [script_construct.py] *)

(** The loop over [words], from the state [(chunks, current_chunk,
    current_size)]. *)
Fixpoint chunk_loop (chunk_size : Z) (words : list str)
    (chunks : list str) (current_chunk : list str) (current_size : Z)
    : list str * list str :=
  match words with
  | [] => (chunks, current_chunk)
  | word :: rest =>
      if (current_size + Z.of_nat (len word) + 1 >? chunk_size)%Z
         && match current_chunk with [] => false | _ => true end
      then chunk_loop chunk_size rest
             (chunks ++ [join [ch_space] current_chunk]) [word] (Z.of_nat (len word))
      else chunk_loop chunk_size rest
             chunks (current_chunk ++ [word]) (current_size + Z.of_nat (len word) + 1)
  end.

Definition chunk_text (text : str) (chunk_size : Z) : list str :=
  let words := split text in
  let '(chunks, current_chunk) := chunk_loop chunk_size words [] [] 0 in
  match current_chunk with
  | [] => chunks
  | _ => chunks ++ [join [ch_space] current_chunk]
  end.

(** The loop of the script that gathers the chunks to ingest: only sections
    of type [story] whose title is the preferred one are chunked, each with
    its title line in front. *)
Fixpoint collect_chunks (preferred : str) (sections : list section) : list str :=
  match sections with
  | [] => []
  | section_ :: rest =>
      match s_type section_ with
      | story =>
          if bool_decide (s_title section_ = preferred)
          then chunk_text (S_ "Title: " ++ s_title section_
                           ++ [ch_newline; ch_newline] ++ s_content section_) 100000
               ++ collect_chunks preferred rest
          else collect_chunks preferred rest
      | content => collect_chunks preferred rest
      end
  end.

Definition preferred_story : str := S_ "Story".

Definition all_chunks (sections : list section) : list str :=
  collect_chunks preferred_story sections.

(** What the script prints while gathering: one line per selected
    section. *)
Fixpoint collect_prints (preferred : str) (sections : list section) : list str :=
  match sections with
  | [] => []
  | section_ :: rest =>
      match s_type section_ with
      | story =>
          if bool_decide (s_title section_ = preferred)
          then (S_ "Story '" ++ s_title section_ ++ S_ "' split into "
                ++ str_of_nat (length (chunk_text (S_ "Title: " ++ s_title section_
                     ++ [ch_newline; ch_newline] ++ s_content section_) 100000))
                ++ S_ " chunks")
               :: collect_prints preferred rest
          else collect_prints preferred rest
      | content => collect_prints preferred rest
      end
  end.

(** What the script does to the outside, in order: a line printed, a call
    of [rag.insert] with its argument, a call of [time.sleep]. *)
Inductive event :=
| Printed (text : str)
| Inserted (docs : list str)
| Slept (seconds : nat).

(** [needle in hay]. *)
Fixpoint starts_with (needle hay : str) : bool :=
  match needle, hay with
  | [], _ => true
  | c :: needle', d :: hay' => (c =? d)%N && starts_with needle' hay'
  | _ :: _, [] => false
  end.
Fixpoint contains (needle hay : str) : bool :=
  starts_with needle hay
  || match hay with
     | [] => false
     | _ :: hay' => contains needle hay'
     end.

(** The four pictographs of the script's messages. *)
Abbreviation ch_check := 9989%N (only parsing).
Abbreviation ch_cross := 10060%N (only parsing).
Abbreviation ch_hourglass := 9203%N (only parsing).
Abbreviation ch_party := 127881%N (only parsing).

Definition delay_between_chunks : nat := 3.

Section Ingestion.
(** The knowledge base is outside the repository: a state, and [rag.insert]
    that changes it and either returns or raises an exception, of which the
    script reads only [str(e)].  [str.lower] is the interpreter's. *)
Variable B : Type.
Variable rag_insert : B -> list str -> B * option str.
Variable str_lower : str -> str.

(** The loop over [enumerate(all_chunks)] from index [i] on; [total] is
    [len(all_chunks)]. *)
Fixpoint process_chunks (total i : nat) (chunks : list str) (b : B) : B * list event :=
  match chunks with
  | [] => (b, [])
  | chunk :: rest =>
      let processing :=
        Printed (ch_newline :: S_ "Processing chunk " ++ str_of_nat (i + 1) ++ S_ "/"
                 ++ str_of_nat total ++ S_ " (length: " ++ str_of_nat (len chunk)
                 ++ S_ " chars)") in
      let wait :=
        if i + 1 <? total
        then [ Printed (ch_hourglass :: S_ " Waiting " ++ str_of_nat delay_between_chunks
                        ++ S_ " seconds before next chunk...");
               Slept delay_between_chunks ]
        else [] in
      let next (b' : B) (events : list event) :=
        let '(b'', events') := process_chunks total (S i) rest b' in
        (b'', events ++ wait ++ events') in
      match rag_insert b [chunk] with
      | (b1, None) =>
          next b1 [ processing; Inserted [chunk];
                    Printed (ch_check :: S_ " Successfully processed chunk "
                             ++ str_of_nat (i + 1)) ]
      | (b1, Some e) =>
          let failed :=
            [ processing; Inserted [chunk];
              Printed (ch_cross :: S_ " Error processing chunk " ++ str_of_nat (i + 1)
                       ++ S_ ": " ++ e) ] in
          if contains (S_ "rate limit") (str_lower e)
          then
            let retry :=
              failed ++ [ Printed (ch_hourglass
                                   :: S_ " Rate limit hit, waiting 15 seconds before retry...");
                          Slept 15; Inserted [chunk] ] in
            match rag_insert b1 [chunk] with
            | (b2, None) =>
                next b2 (retry ++ [ Printed (ch_check :: S_ " Successfully processed chunk "
                                             ++ str_of_nat (i + 1) ++ S_ " on retry") ])
            | (b2, Some retry_e) =>
                (b2, retry ++ [ Printed (ch_cross :: S_ " Failed on retry: " ++ retry_e) ])
            end
          else next b1 failed
      end
  end.

(** The script from the loaded [sections] on. *)
Definition run_script (sections : list section) (b : B) : B * list event :=
  let chunks := all_chunks sections in
  let '(b', events) := process_chunks (length chunks) 0 chunks b in
  (b',
   map Printed (collect_prints preferred_story sections)
   ++ [ Printed (ch_newline :: S_ "Total chunks to process: " ++ str_of_nat (length chunks)) ]
   ++ events
   ++ [ Printed (ch_newline :: ch_party :: S_ " All chunks processed!") ]).

End Ingestion.

(** ** Vocabulary of the statements *)

(** A word as [str.split()] returns it: not empty, no whitespace inside. *)
Definition no_space (w : str) : Prop := Forall (fun c => is_space c = false) w.
Definition good_word (w : str) : Prop := w <> [] /\ no_space w.

(** What [chunk_text] returns from a loop state. *)
Definition flush (st : list str * list str) : list str :=
  match snd st with
  | [] => fst st
  | _ => fst st ++ [join [ch_space] (snd st)]
  end.

(** [s * n]. *)
Fixpoint repeat_str (s : str) (n : nat) : str :=
  match n with
  | O => []
  | S n' => s ++ repeat_str s n'
  end.

(** The alphabet the specification gives for normalised text: alphanumeric,
    whitespace, or listed punctuation. *)
Definition in_stated_alphabet (db : unicode_db) (c : char) : bool :=
  isalnum db c || is_space c || is_kept_punct c.

(** The alphabet the last substitution of [clean_text] leaves: the stated
    one and the underscore. *)
Definition in_kept_alphabet (db : unicode_db) (c : char) : bool :=
  isalnum db c || (c =? ch_underscore)%N || is_space c || is_kept_punct c.

(** No two whitespace characters in a row. *)
Fixpoint no_ws_run (s : str) : bool :=
  match s with
  | c :: s' =>
      match s' with
      | c' :: _ => negb (is_space c && is_space c') && no_ws_run s'
      | [] => true
      end
  | [] => true
  end.

(** No whitespace at either end. *)
Definition trimmed (s : str) : bool :=
  match s, last s with
  | c :: _, Some d => negb (is_space c) && negb (is_space d)
  | _, _ => true
  end.

(** The shape the specification gives for normalised text: single
    separators, no newline, trimmed. *)
Definition single_spaced (s : str) : bool :=
  no_ws_run s && forallb (fun c => negb (c =? ch_newline)%N) s && trimmed s.

(** The example document of the specification: two upper-case headings, each
    followed by a blank line and sixty words. *)
Definition doc_two_chapters : str :=
  S_ "CHAPTER ONE" ++ [ch_newline; ch_newline] ++ repeat_str (S_ "word ") 60
  ++ [ch_newline; ch_newline] ++ S_ "CHAPTER TWO" ++ [ch_newline; ch_newline]
  ++ repeat_str (S_ "word ") 60.

(** A heading followed by twelve one-word lines. *)
Definition doc_short_story : str :=
  S_ "CHAPTER ONE" ++ [ch_newline] ++ repeat_str (S_ "a" ++ [ch_newline]) 12.

(** Five short lines without any heading. *)
Definition doc_five_lines : str :=
  join [ch_newline] [S_ "one two"; S_ "three"; S_ "four five six"; S_ "seven"; S_ "eight nine"].

Definition zero_statistics : statistics :=
  {| st_total_sections := 0; st_stories := 0;
     st_total_words := 0; st_total_characters := 0 |}.

(** One round of each detector's loop: the marker appended for line index
    [i], if any; [rest'] is [lines[i+1:]]. *)
Definition section_step (db : unicode_db) (i : nat) (raw : str) (rest' : list str)
    : option marker :=
  match strip raw, first_match (section_patterns db) (strip raw) with
  | _ :: _, Some _ =>
      Some {| m_title := strip raw; m_line := i + 1;
              m_start_content := skip_blank (i + 1) rest' + 1 |}
  | _, _ => None
  end.

Definition story_step (db : unicode_db) (nlines i : nat) (raw : str) (rest' : list str)
    : option marker :=
  match strip raw, first_match (story_indicators db) (strip raw) with
  | _ :: _, Some _ =>
      if (len (strip raw) <? 10) then None
      else if (Z.of_nat (skip_blank (i + 1) rest') <? Z.of_nat nlines - 10)%Z
      then Some {| m_title := strip raw; m_line := i + 1;
                   m_start_content := skip_blank (i + 1) rest' + 1 |}
      else None
  | _, _ => None
  end.

(** A loop over [enumerate(lines)] that appends at most one marker per
    line. *)
Fixpoint scan (step : nat -> str -> list str -> option marker) (i : nat)
    (rest : list str) : list marker :=
  match rest with
  | [] => []
  | raw :: rest' =>
      match step i raw rest' with
      | Some m => m :: scan step (S i) rest'
      | None => scan step (S i) rest'
      end
  end.

(** Some marker of [ms] is for the line of 0-based index [i]. *)
Definition has_marker_at (ms : list marker) (i : nat) : Prop :=
  exists m, m ∈ ms /\ m_line m = i + 1.

(** The 0-based index of the content-start line inferred for a heading at
    index [i]: the first line after it that is not blank, or [len(lines)]. *)
Definition content_start_of (lines : list str) (i : nat) : nat :=
  skip_blank (i + 1) (drop (i + 1) lines).

(** How many lines the document has strictly after index [k]. *)
Definition lines_after (lines : list str) (k : nat) : nat :=
  length lines - (k + 1).

(** The patterns of the story detector with the length floor of its
    title-case pattern as a parameter. *)
Definition policy_a_patterns (db : unicode_db) (floor : nat) : list pattern :=
  [ pat_title_case floor;
    pat_numbered db "Chapter";
    pat_numbered db "Part";
    pat_numbered db "Story";
    pat_all_caps ].

(** The pattern set the specification gives the fallback detector: the story
    detector's patterns without the length floor, and the title-case line
    ending in a colon. *)
Definition stated_section_patterns (db : unicode_db) : list pattern :=
  policy_a_patterns db 0 ++ [ pat_title_colon ].

(** The pattern set the fallback detector has: the floor lowered to 10, the
    colon pattern, and Section followed by a number. *)
Definition amended_section_patterns (db : unicode_db) : list pattern :=
  policy_a_patterns db 10 ++ [ pat_title_colon; pat_numbered db "Section" ].

(** The fallback detector marks exactly the lines that match one of
    [patterns]. *)
Definition marks_lines_matching (db : unicode_db) (patterns : list pattern) : Prop :=
  forall (content_ : str) (i : nat) (raw : str),
    split_on ch_newline content_ !! i = Some raw ->
    (has_marker_at (detect_section_patterns db content_) i
     <-> is_Some (first_match patterns (strip raw))).

(** A minimal runtime, to run the driver on concrete worlds: ASCII file
    names without directories, an encoder and a decoder that know ASCII
    only, and a serialisation in two chunks per section, its title and its
    content. *)
Fixpoint before_dot (p : str) : str :=
  match p with
  | c :: p' => if (c =? 46)%N then [] else c :: before_dot p'
  | [] => []
  end.

Definition small_runtime : runtime :=
  {| rt_unicode := ascii_db;
     path_stem := before_dot;
     str_title := fun s => s;
     decode_utf8 := fun bytes => if forallb (fun b => b <? 128)%N bytes then Some bytes else None;
     encode_utf8 := fun s => if forallb (fun c => c <? 128)%N s then Some s else None;
     json_chunks_book := fun b => concat (map (fun s => [s_title s; s_content s]) (bj_sections b));
     json_chunks_section := fun s => [s_title s; s_content s];
     json_loads_book := fun _ => None;
     exn_message := fun _ => [] |}.

(** A world with no file and nothing printed. *)
Definition empty_world : world :=
  {| locate := fun path => path; files := ∅; denied := ∅; stdout := [] |}.

(** A world whose only file is [book.txt], holding the five-line
    document. *)
Definition book_world : world :=
  {| locate := fun path => path;
     files := {[ S_ "book.txt" := doc_five_lines ]};
     denied := ∅;
     stdout := [] |}.

(** The same world, in which the directory of [out/book.json] is missing. *)
Definition no_directory_world : world :=
  {| locate := fun path => path;
     files := {[ S_ "book.txt" := doc_five_lines ]};
     denied := {[ S_ "out/book.json" := FileNotFoundError (S_ "out/book.json") ]};
     stdout := [] |}.

(** The two-chapter document with a no-break space (U+00A0, whitespace for
    the patterns) in its second heading, which the ASCII encoder of the
    minimal runtime refuses. *)
Definition doc_no_break_space : str :=
  S_ "CHAPTER ONE" ++ [ch_newline; ch_newline] ++ repeat_str (S_ "word ") 60
  ++ [ch_newline; ch_newline] ++ S_ "CHAPTER" ++ [160%N] ++ S_ "TWO"
  ++ [ch_newline; ch_newline] ++ repeat_str (S_ "word ") 60.

Definition no_break_space_world : world :=
  {| locate := fun path => path;
     files := {[ S_ "book.txt" := doc_no_break_space ]};
     denied := ∅;
     stdout := [] |}.

(** The bytes of the chunks, when every one of them can be encoded. *)
Fixpoint encode_all (rt : runtime) (chunks : list str) : option (list N) :=
  match chunks with
  | [] => Some []
  | chunk :: rest =>
      match encode_utf8 rt chunk, encode_all rt rest with
      | Some bytes, Some more => Some (bytes ++ more)
      | _, _ => None
      end
  end.

(** What the driver prints when the input file is missing. *)
Definition not_found_report (input_file : str) : list str :=
  [ S_ "Reading text from: " ++ input_file;
    S_ "Error: Could not find input file '" ++ input_file ++ S_ "'";
    S_ "Please make sure the file exists and the path is correct." ].

(** A round of a detector's loop, when it appends a marker, appends the
    one for a line that is not blank: the trimmed line as title, the 1-based
    line number, and the content start found by [skip_blank]. *)
Definition heading_step (step : nat -> str -> list str -> option marker) : Prop :=
  forall i raw rest' m,
    step i raw rest' = Some m ->
    strip raw <> []
    /\ m = {| m_title := strip raw; m_line := i + 1;
              m_start_content := skip_blank (i + 1) rest' + 1 |}.

(** Document order on markers: the second heading is on a later line, and
    not before the content start of the first. *)
Definition marker_before (m1 m2 : marker) : Prop :=
  m_line m1 < m_line m2 /\ m_start_content m1 <= m_line m2.

(** Document order on segments: the first ends before the second starts. *)
Definition segment_before (s1 s2 : section) : Prop :=
  s_end_line s1 < s_start_line s2.

(** A segment's line range lies within a document of [nlines] lines. *)
Definition range_within (nlines : nat) (s : section) : Prop :=
  1 <= s_start_line s /\ s_start_line s <= s_end_line s /\ s_end_line s <= nlines.

(** The output path [main] settles on: the given one unless it is missing or
    empty, else the input's stem followed by [_structured.json]. *)
Definition output_name (rt : runtime) (a : args) : str :=
  match a_output a with
  | Some (c :: o) => c :: o
  | _ => path_stem rt (a_input_file a) ++ S_ "_structured.json"
  end.

(** The name of the file written for a section of the given title. *)
Definition section_file_name (rt : runtime) (title : str) : str :=
  S_ "section_" ++ safe_title rt title ++ S_ ".json".

(** What a read of [bytes] in text mode returns: the UTF-8 decoding, or the
    latin-1 decoding when that fails. *)
Definition text_of_bytes (rt : runtime) (bytes : list N) : str :=
  universal_newlines (match decode_utf8 rt bytes with Some s => s | None => bytes end).

(** A computation keeps the resolution of paths and changes no file but
    those that a path satisfying [P] names. *)
Definition touches_only {A} (P : str -> Prop) (m : M A) : Prop :=
  forall w,
    locate (snd (m w)) = locate w
    /\ forall id, files (snd (m w)) !! id <> files w !! id ->
                  exists path, P path /\ id = locate w path.

(** What the driver prints when the output cannot be opened for want of a
    directory: the report of a missing input. *)
Definition misleading_report (input_file output_file : str) : list str :=
  [ S_ "Reading text from: " ++ input_file;
    S_ "Analyzing content structure...";
    S_ "Writing structured JSON to: " ++ output_file;
    S_ "Error: Could not find input file '" ++ input_file ++ S_ "'";
    S_ "Please make sure the file exists and the path is correct." ].

(** A chunk respects the size limit, or is a single word. *)
Definition chunk_ok (chunk_size : Z) (c : str) : Prop :=
  c <> [] /\ ((Z.of_nat (len c) <= chunk_size)%Z \/ no_space c).

(** The text the script chunks for a section. *)
Definition titled_text (s : section) : str :=
  S_ "Title: " ++ s_title s ++ [ch_newline; ch_newline] ++ s_content s.

(** The sections the script selects. *)
Definition selected (preferred : str) (s : section) : bool :=
  is_story s && bool_decide (s_title s = preferred).

(** The arguments of the [rag.insert] calls of a run, in order, and the
    seconds slept in all. *)
Definition inserted (events : list event) : list (list str) :=
  omap (fun e => match e with Inserted docs => Some docs | _ => None end) events.
Definition slept (events : list event) : nat :=
  foldr (fun e acc => match e with Slept n => n + acc | _ => acc end) 0 events.

(** A knowledge base that stores what it is given and never raises. *)
Definition store_insert (b : list (list str)) (docs : list str)
    : list (list str) * option str :=
  (b ++ [docs], None).

(** A knowledge base that refuses everything with the given message. *)
Definition refuse_insert (msg : str) (b : nat) (docs : list str) : nat * option str :=
  (S b, Some msg).

(** * Properties *)

(** ** The matcher decides the language of the pattern *)

Lemma nullable_lang r : nullable r = true <-> lang r [].
Proof.
  induction r as [| |p|r1 IH1 r2 IH2|r1 IH1 r2 IH2|r IH]; cbn [nullable].
  - split; [discriminate|inversion 1].
  - split; [constructor|reflexivity].
  - split; [discriminate|inversion 1].
  - rewrite andb_true_iff, IH1, IH2. split.
    + intros [H1 H2]. apply (lang_seq _ _ [] [] H1 H2).
    + intros H. inversion H as [| |? ? s1 s2 H1 H2| | | |]; subst.
      match goal with E : _ ++ _ = [] |- _ => apply app_eq_nil in E as [-> ->] end.
      split; assumption.
  - rewrite orb_true_iff, IH1, IH2. split.
    + intros [H|H]; [apply lang_alt_l|apply lang_alt_r]; exact H.
    + inversion 1; subst; [left|right]; assumption.
  - split; [constructor|reflexivity].
Qed.

Lemma deriv_sound c r s : lang (deriv c r) s -> lang r (c :: s).
Proof.
  revert s. induction r as [| |p|r1 IH1 r2 IH2|r1 IH1 r2 IH2|r IH]; intros s; cbn [deriv].
  - inversion 1.
  - inversion 1.
  - destruct (p c) eqn:Hp; inversion 1; subst. constructor. exact Hp.
  - assert (Hseq : lang (Seq (deriv c r1) r2) s -> lang (Seq r1 r2) (c :: s)).
    { inversion 1 as [| |? ? s1 s2 H1 H2| | | |]; subst.
      apply (lang_seq r1 r2 (c :: s1) s2); [apply IH1; exact H1|exact H2]. }
    destruct (nullable r1) eqn:Hn; [|exact Hseq].
    inversion 1; subst; [apply Hseq; assumption|].
    apply (lang_seq r1 r2 [] (c :: s)); [apply nullable_lang; exact Hn|apply IH2; assumption].
  - inversion 1; subst; [apply lang_alt_l, IH1|apply lang_alt_r, IH2]; assumption.
  - inversion 1 as [| |? ? s1 s2 H1 H2| | | |]; subst.
    apply (lang_star_more r (c :: s1) s2); [apply IH; exact H1|exact H2].
Qed.

Lemma deriv_complete c r s : lang r (c :: s) -> lang (deriv c r) s.
Proof.
  intros H. remember (c :: s) as cs eqn:Hcs. revert s Hcs.
  induction H as [|p d Hp|r1 r2 s1 s2 H1 IH1 H2 IH2|r1 r2 t H IH|r1 r2 t H IH
                 |r|r s1 s2 H1 IH1 H2 IH2]; intros s Hcs; cbn [deriv].
  - discriminate.
  - injection Hcs as -> <-. rewrite Hp. constructor.
  - destruct s1 as [|d s1].
    + simpl in Hcs. subst s2.
      apply nullable_lang in H1. rewrite H1. apply lang_alt_r. apply IH2. reflexivity.
    + injection Hcs as -> <-.
      assert (Hseq : lang (Seq (deriv c r1) r2) (s1 ++ s2))
        by (apply lang_seq; [apply IH1; reflexivity|exact H2]).
      destruct (nullable r1); [apply lang_alt_l|]; exact Hseq.
  - apply lang_alt_l, IH, Hcs.
  - apply lang_alt_r, IH, Hcs.
  - discriminate.
  - destruct s1 as [|d s1].
    + simpl in Hcs. apply (IH2 s Hcs).
    + injection Hcs as -> <-. apply lang_seq; [apply IH1; reflexivity|exact H2].
Qed.

(** [matches_whole] decides membership of the whole string. *)
Lemma matches_whole_lang r s : matches_whole r s = true <-> lang r s.
Proof.
  revert r. induction s as [|c s IH]; intros r; cbn [matches_whole].
  - apply nullable_lang.
  - rewrite IH. split; [apply deriv_sound|apply deriv_complete].
Qed.

(** [matches_prefix] decides membership of some prefix. *)
Lemma matches_prefix_lang r s :
  matches_prefix r s = true <-> exists s1 s2, s = s1 ++ s2 /\ lang r s1.
Proof.
  revert r. induction s as [|c s IH]; intros r; cbn [matches_prefix].
  - rewrite orb_false_r, nullable_lang. split.
    + intros H. exists [], []. split; [reflexivity|exact H].
    + intros (s1 & s2 & Heq & H). symmetry in Heq.
      apply app_eq_nil in Heq as [-> _]. exact H.
  - rewrite orb_true_iff, nullable_lang, IH. split.
    + intros [H|(s1 & s2 & -> & H)].
      * exists [], (c :: s). split; [reflexivity|exact H].
      * exists (c :: s1), s2. split; [reflexivity|apply deriv_sound; exact H].
    + intros (s1 & s2 & Heq & H). destruct s1 as [|d s1]; [left; exact H|].
      injection Heq as <- ->. right. exists s1, s2.
      split; [reflexivity|apply deriv_complete; exact H].
Qed.

(** The patterns on sample lines. *)
Example pat_numbered_samples :
  map (re_match (pat_numbered ascii_db "Chapter"))
      [ S_ "Chapter 12 begins"; S_ "Chapter  7"; S_ "Chapter12"; S_ "Chapter one"; S_ "chapter 1" ]
  = [ true; true; false; false; false ].
Proof. vm_compute. reflexivity. Qed.

Example pat_title_case_samples :
  map (re_match (pat_title_case 10))
      [ S_ "Hello world"; S_ "Hello"; S_ "Hello World"; S_ "hello worlds" ]
  = [ true; false; false; false ]
  /\ map (re_match (pat_title_case 15))
       [ S_ "Hello world"; S_ "The long way home"; S_ "The long way home." ]
     = [ false; true; false ].
Proof. vm_compute. split; reflexivity. Qed.

Example pat_all_caps_samples :
  map (re_match pat_all_caps)
      [ S_ "CHAPTER ONE"; S_ "A"; S_ "AB"; S_ "CHAPTER 1"; S_ "Chapter ONE" ]
  = [ true; false; true; false; false ].
Proof. vm_compute. reflexivity. Qed.

Example pat_title_colon_samples :
  map (re_match pat_title_colon)
      [ S_ "Title:"; S_ "Title"; S_ "T:"; S_ "Title: more"; S_ "The end:" ]
  = [ true; false; false; false; true ].
Proof. vm_compute. reflexivity. Qed.

(** The string operations on sample inputs. *)
Example string_samples :
  split_on ch_newline (S_ "a" ++ [ch_newline] ++ S_ "b" ++ [ch_newline]) = [ S_ "a"; S_ "b"; [] ]
  /\ split_on ch_newline [] = [ [] ]
  /\ split (S_ "  a  b c ") = [ S_ "a"; S_ "b"; S_ "c" ]
  /\ strip (S_ "  a b  ") = S_ "a b"
  /\ join [ch_space] [ S_ "a"; S_ "b" ] = S_ "a b"
  /\ clean_text ascii_db [] = []
  /\ clean_text ascii_db (S_ " a" ++ [ch_newline; 9%N] ++ S_ "b, (c) ") = S_ "a b, (c)"
  /\ clean_text ascii_db (S_ "a" ++ [ch_open] ++ S_ "note" ++ [ch_close] ++ S_ "b") = S_ "ab"
  /\ clean_text ascii_db (S_ "a" ++ [ch_open] ++ S_ "b") = S_ "ab".
Proof. vm_compute. repeat split. Qed.

(** ** Words and joins *)

Lemma split_from_space_cut acc a sp b :
  is_space sp = true ->
  split_from acc (a ++ sp :: b) = split_from acc a ++ split b.
Proof.
  intros Hsp. revert acc. induction a as [|c a IH]; intros acc; simpl.
  - rewrite Hsp. destruct acc; reflexivity.
  - destruct (is_space c); [destruct acc|]; simpl; rewrite ?IH; reflexivity.
Qed.

Lemma split_from_word acc w :
  no_space w ->
  split_from acc w = match acc ++ w with [] => [] | _ => [acc ++ w] end.
Proof.
  intros Hw. revert acc. induction Hw as [|c w Hc _ IH]; intros acc; simpl.
  - rewrite app_nil_r. reflexivity.
  - rewrite Hc, IH, <- app_assoc. reflexivity.
Qed.

Lemma split_good_word w : good_word w -> split w = [w].
Proof.
  intros [Hne Hw]. unfold split. rewrite split_from_word by assumption.
  simpl. destruct w; [contradiction|reflexivity].
Qed.

Lemma split_from_good acc s :
  no_space acc -> Forall good_word (split_from acc s).
Proof.
  revert acc. induction s as [|c s IH]; intros acc Hacc; simpl.
  - destruct acc; constructor; [split; [discriminate|assumption]|constructor].
  - destruct (is_space c) eqn:Hc.
    + destruct acc.
      * apply IH. constructor.
      * constructor; [split; [discriminate|assumption]|]. apply IH. constructor.
    + apply IH. apply Forall_app. split; [assumption|]. repeat constructor. assumption.
Qed.

Lemma split_good s : Forall good_word (split s).
Proof. apply split_from_good. constructor. Qed.

Lemma split_join_cons p ps :
  split (join [ch_space] (p :: ps)) = split p ++ split (join [ch_space] ps).
Proof.
  destruct ps as [|q ps].
  - simpl. rewrite app_nil_r. reflexivity.
  - change (join [ch_space] (p :: q :: ps)) with (p ++ ch_space :: join [ch_space] (q :: ps)).
    unfold split at 1. rewrite split_from_space_cut by reflexivity. reflexivity.
Qed.

Lemma split_join_words ws :
  Forall good_word ws -> split (join [ch_space] ws) = ws.
Proof.
  induction 1 as [|w ws Hw _ IH]; [reflexivity|].
  rewrite split_join_cons, IH, split_good_word by assumption. reflexivity.
Qed.

Lemma split_join_chunks chunks :
  split (join [ch_space] chunks) = concat (map split chunks).
Proof.
  induction chunks as [|c chunks IH]; [reflexivity|].
  rewrite split_join_cons, IH. reflexivity.
Qed.

Lemma flush_words chunks current_chunk :
  Forall good_word current_chunk ->
  concat (map split (flush (chunks, current_chunk)))
  = concat (map split chunks) ++ current_chunk.
Proof.
  intros Hcur. unfold flush. cbn [fst snd].
  destruct current_chunk as [|w cur]; [rewrite app_nil_r; reflexivity|].
  rewrite map_app, concat_app. cbn [map concat].
  rewrite split_join_words, app_nil_r by assumption. reflexivity.
Qed.

Lemma chunk_loop_words chunk_size words :
  Forall good_word words ->
  forall chunks current_chunk current_size,
    Forall good_word current_chunk ->
    concat (map split (flush (chunk_loop chunk_size words chunks current_chunk current_size)))
    = concat (map split chunks) ++ current_chunk ++ words.
Proof.
  induction 1 as [|word rest Hword Hrest IH]; intros chunks cur size Hcur;
    cbn [chunk_loop].
  - rewrite flush_words, app_nil_r by assumption. reflexivity.
  - destruct (_ && _).
    + rewrite IH by (repeat constructor; apply Hword).
      rewrite map_app, concat_app. cbn [map concat].
      rewrite split_join_words, app_nil_r, <- app_assoc by assumption. reflexivity.
    + rewrite IH by (apply Forall_app; split; [assumption|repeat constructor; apply Hword]).
      rewrite <- !app_assoc. reflexivity.
Qed.

(** C10. For every text and every positive [chunk_size], joining the chunks
    of [chunk_text] with single spaces and splitting the result on
    whitespace gives the word list of the text: the same words, in the same
    order, each once. *)
Theorem chunk_text_preserves_words (text : str) (chunk_size : Z) :
  (0 < chunk_size)%Z ->
  split (join [ch_space] (chunk_text text chunk_size)) = split text.
Proof.
  intros _. rewrite split_join_chunks. unfold chunk_text.
  pose proof (chunk_loop_words chunk_size (split text) (split_good text) [] [] 0%Z
                (List.Forall_nil _)) as H.
  unfold flush in H. cbn [map concat app] in H.
  destruct (chunk_loop chunk_size (split text) [] [] 0) as [chunks cur].
  cbn [fst snd] in H. destruct cur; exact H.
Qed.

Lemma chunk_text_preserves_words_witness :
  (0 < 6)%Z /\
  split (join [ch_space] (chunk_text (S_ " aa bb  cc ddd e ") 6))
  = split (S_ " aa bb  cc ddd e ").
Proof.
  split; [lia|]. apply (chunk_text_preserves_words (S_ " aa bb  cc ddd e ") 6). lia.
Defined.

(** ** [clean_text] *)

Lemma sub_ws_runs_spaces s :
  Forall (fun c => is_space c = true -> c = ch_space) (sub_ws_runs s).
Proof.
  induction s as [|c s IH]; [constructor|]. cbn [sub_ws_runs].
  destruct (is_space c) eqn:Hc.
  - destruct s as [|c' s]; [repeat constructor|].
    destruct (is_space c'); [exact IH|]. constructor; [reflexivity|exact IH].
  - constructor; [congruence|exact IH].
Qed.

Lemma sub_marked_Forall (P : char -> Prop) inside s :
  Forall P s -> Forall P (sub_marked inside s).
Proof.
  intros H. revert inside. induction H as [|c s Hc _ IH]; intros inside; [constructor|].
  cbn [sub_marked]. destruct inside.
  - destruct (c =? ch_close)%N; apply IH.
  - destruct (_ && _); [apply IH|]. constructor; [exact Hc|apply IH].
Qed.

Lemma filter_Forall (P : char -> Prop) (f : char -> bool) s :
  Forall P s -> Forall P (List.filter f s).
Proof.
  induction 1 as [|c s Hc _ IH]; [constructor|]. simpl.
  destruct (f c); [constructor|]; assumption.
Qed.

(** Every whitespace character of the normalised text is a plain space: no
    newline, tab or other separator survives. *)
Lemma clean_text_only_plain_spaces db text :
  Forall (fun c => is_space c = true -> c = ch_space) (clean_text db text).
Proof.
  unfold clean_text, sub_special.
  apply filter_Forall, sub_marked_Forall, sub_ws_runs_spaces.
Qed.

(** C4, as amended. Every character of [clean_text text] is alphanumeric, an
    underscore, whitespace, or one of the listed punctuation characters. *)
Theorem clean_text_alphabet (db : unicode_db) (text : str) :
  Forall (fun c => in_kept_alphabet db c = true) (clean_text db text).
Proof.
  unfold clean_text, sub_special. apply Forall_forall. intros c Hc.
  apply list_elem_of_In, filter_In in Hc as [_ Hc].
  unfold is_special in Hc. rewrite negb_involutive in Hc.
  unfold in_kept_alphabet. unfold is_word in Hc. exact Hc.
Qed.

(** C4, as stated, fails: the underscores of [snake_case] survive
    normalisation although an underscore is not alphanumeric, whitespace or
    listed punctuation. *)
Lemma clean_text_keeps_underscore :
  clean_text ascii_db (S_ "snake_case") = S_ "snake_case"
  /\ ~ Forall (fun c => in_stated_alphabet ascii_db c = true)
         (clean_text ascii_db (S_ "snake_case")).
Proof.
  split; [vm_compute; reflexivity|].
  rewrite Forall_forall. intros H.
  specialize (H ch_underscore). vm_compute in H.
  assert (Hin : In 95%N (S_ "snake_case")) by (vm_compute; tauto).
  apply list_elem_of_In in Hin. specialize (H Hin). discriminate.
Qed.

(** C5 on the code. Deleting a character after the whitespace has been
    collapsed leaves its two neighbouring spaces side by side, and leaves a
    space at an end of the text when the character was first or last. *)
Theorem clean_text_not_single_spaced :
  clean_text ascii_db (S_ "a # b") = S_ "a  b"
  /\ clean_text ascii_db (S_ "# a #") = S_ " a "
  /\ single_spaced (clean_text ascii_db (S_ "a # b")) = false
  /\ single_spaced (clean_text ascii_db (S_ "# a #")) = false.
Proof. vm_compute. repeat split. Qed.

(** ** Segmentation *)

(** C1. On the example document the pipeline returns two segments, both of
    kind [story], titled CHAPTER ONE and CHAPTER TWO in that order; their
    word counts are 62 and 60 (the first segment runs up to the content of
    the second, so it takes in the second heading), each within 2 of 60. *)
Theorem two_chapters_example (db : unicode_db) :
  map (fun s => (s_type s, s_title s, s_start_line s, s_end_line s, s_word_count s))
      (extract_content_sections db doc_two_chapters)
  = [ (story, S_ "CHAPTER ONE", 3, 6, 62); (story, S_ "CHAPTER TWO", 7, 7, 60) ].
Proof. vm_compute. reflexivity. Qed.

(** C6. When neither detector finds a marker, the result is the single
    segment of kind [content] titled Full Content, spanning line 1 to the
    last line, holding the normalised whole text, however few words it
    has. *)
Theorem no_boundaries_full_document (db : unicode_db) (content_ : str) :
  detect_story_boundaries db content_ = [] ->
  detect_section_patterns db content_ = [] ->
  extract_content_sections db content_
  = [ {| s_type := content;
         s_title := S_ "Full Content";
         s_content := clean_text db content_;
         s_start_line := 1;
         s_end_line := length (split_on ch_newline content_);
         s_word_count := length (split (clean_text db content_));
         s_character_count := len (clean_text db content_) |} ].
Proof.
  intros HA HB. unfold extract_content_sections. rewrite HA, HB. reflexivity.
Qed.

Lemma no_boundaries_full_document_witness :
  detect_story_boundaries ascii_db doc_five_lines = []
  /\ detect_section_patterns ascii_db doc_five_lines = []
  /\ map (fun s => (s_type s, s_start_line s, s_end_line s, s_word_count s))
       (extract_content_sections ascii_db doc_five_lines)
     = [ (content, 1, 5, 9) ].
Proof.
  split; [vm_compute; reflexivity|]. split; [vm_compute; reflexivity|].
  rewrite (no_boundaries_full_document ascii_db doc_five_lines);
    vm_compute; reflexivity.
Defined.

Lemma sections_loop_counts db lines stories :
  Forall (fun s => s_word_count s = length (split (s_content s))
                   /\ s_character_count s = len (s_content s))
         (sections_loop db lines stories).
Proof.
  induction stories as [|st rest IH]; [constructor|]. cbn [sections_loop].
  destruct (_ <? 50); [exact IH|]. constructor; [split; reflexivity|exact IH].
Qed.

Lemma sum_of_ext (f g : section -> nat) sections :
  Forall (fun s => f s = g s) sections -> sum_of f sections = sum_of g sections.
Proof.
  induction 1 as [|s l Hs _ IH]; [reflexivity|].
  unfold sum_of in *. cbn [foldr]. rewrite Hs, IH. reflexivity.
Qed.

(** C7. Every segment stores the number of whitespace-separated words of its
    content and the length of its content; the statistics of the assembled
    document are the sums of these stored counts (hence of the counts
    recomputed from the contents) and the number of segments. *)
Theorem counts_are_consistent (rt : runtime) (input_file content_ : str) :
  let book := assemble rt input_file content_ in
  bj_sections book = extract_content_sections (rt_unicode rt) content_
  /\ Forall (fun s => s_word_count s = length (split (s_content s))
                      /\ s_character_count s = len (s_content s))
            (bj_sections book)
  /\ st_total_words (bj_statistics book) = sum_of s_word_count (bj_sections book)
  /\ st_total_characters (bj_statistics book) = sum_of s_character_count (bj_sections book)
  /\ st_total_sections (bj_statistics book) = length (bj_sections book)
  /\ st_total_words (bj_statistics book)
     = sum_of (fun s => length (split (s_content s))) (bj_sections book)
  /\ st_total_characters (bj_statistics book)
     = sum_of (fun s => len (s_content s)) (bj_sections book).
Proof.
  cbn zeta.
  assert (H : Forall (fun s => s_word_count s = length (split (s_content s))
                               /\ s_character_count s = len (s_content s))
                (bj_sections (assemble rt input_file content_))).
  { unfold assemble. cbn [bj_sections]. unfold extract_content_sections.
    destruct (match detect_story_boundaries _ _ with [] => _ | _ => _ end).
    - repeat constructor.
    - apply sections_loop_counts. }
  split; [reflexivity|]. split; [exact H|]. repeat split.
  - apply sum_of_ext. eapply Forall_impl; [exact H|]. intros s [Hs _]. exact Hs.
  - apply sum_of_ext. eapply Forall_impl; [exact H|]. intros s [_ Hs]. exact Hs.
Qed.

(** C9. The heading of [doc_short_story] is detected (by the story detector
    itself), its segment has twelve words and is dropped, and no fallback
    segment replaces it: the structured document has no segment and all its
    statistics are zero. *)
Theorem detected_yet_empty (rt : runtime) (input_file : str) :
  detect_story_boundaries (rt_unicode rt) doc_short_story
  = [ {| m_title := S_ "CHAPTER ONE"; m_line := 1; m_start_content := 2 |} ]
  /\ extract_content_sections (rt_unicode rt) doc_short_story = []
  /\ bj_sections (assemble rt input_file doc_short_story) = []
  /\ bj_statistics (assemble rt input_file doc_short_story) = zero_statistics.
Proof.
  assert (H : extract_content_sections (rt_unicode rt) doc_short_story = [])
    by (vm_compute; reflexivity).
  split; [vm_compute; reflexivity|]. split; [exact H|].
  unfold assemble. cbn [bj_sections bj_statistics]. rewrite H. split; reflexivity.
Qed.

(** ** Boundary detection *)

Lemma section_loop_scan db i rest :
  section_loop db i rest = scan (section_step db) i rest.
Proof.
  revert i. induction rest as [|raw rest IH]; intros i; [reflexivity|].
  cbn [section_loop scan]. unfold section_step. rewrite IH.
  destruct (strip raw); [reflexivity|].
  destruct (first_match _ _); reflexivity.
Qed.

Lemma story_loop_scan db nlines i rest :
  story_loop db nlines i rest = scan (story_step db nlines) i rest.
Proof.
  revert i. induction rest as [|raw rest IH]; intros i; [reflexivity|].
  cbn [story_loop scan]. unfold story_step. rewrite IH.
  destruct (strip raw) eqn:Hs; [reflexivity|]. cbn [orb].
  destruct (len _ <? 10).
  - destruct (first_match _ _); reflexivity.
  - destruct (first_match _ _); [|reflexivity].
    destruct (_ <? _)%Z; reflexivity.
Qed.

Lemma elem_of_scan step i rest m :
  m ∈ scan step i rest
  <-> exists k raw, rest !! k = Some raw /\ step (i + k) raw (drop (S k) rest) = Some m.
Proof.
  revert i. induction rest as [|raw0 rest IH]; intros i.
  - cbn [scan]. split; [intros H; inversion H|intros (k & raw & H & _); destruct k; discriminate].
  - cbn [scan]. split.
    + intros H.
      assert (Hrest : m ∈ scan step (S i) rest ->
                exists k raw, (raw0 :: rest) !! k = Some raw
                  /\ step (i + k) raw (drop (S k) (raw0 :: rest)) = Some m).
      { intros H'. apply IH in H' as (k & raw & Hk & Hstep).
        exists (S k), raw. split; [exact Hk|].
        replace (i + S k) with (S i + k) by lia. exact Hstep. }
      destruct (step i raw0 rest) as [m0|] eqn:H0; [|auto].
      apply elem_of_cons in H as [->|H]; [|auto].
      exists 0, raw0. rewrite Nat.add_0_r. split; [reflexivity|exact H0].
    + intros (k & raw & Hk & Hstep). destruct k as [|k].
      * injection Hk as ->. rewrite Nat.add_0_r in Hstep. rewrite skipn_cons, drop_0 in Hstep.
        rewrite Hstep. apply elem_of_cons. left. reflexivity.
      * assert (H' : m ∈ scan step (S i) rest).
        { apply IH. exists k, raw. split; [exact Hk|].
          replace (S i + k) with (i + S k) by lia. exact Hstep. }
        destruct (step i raw0 rest); [apply elem_of_cons; right|]; exact H'.
Qed.

Lemma section_step_line db i raw rest' m :
  section_step db i raw rest' = Some m -> m_line m = i + 1.
Proof.
  unfold section_step. destruct (strip raw); [discriminate|].
  destruct (first_match _ _); [|discriminate]. intros [= <-]. reflexivity.
Qed.

Lemma story_step_line db nlines i raw rest' m :
  story_step db nlines i raw rest' = Some m -> m_line m = i + 1.
Proof.
  unfold story_step. destruct (strip raw); [discriminate|].
  destruct (first_match _ _); [|discriminate].
  destruct (_ <? 10); [discriminate|]. destruct (_ <? _)%Z; [|discriminate].
  intros [= <-]. reflexivity.
Qed.

(** The markers for line [i] are the outcome of the round on line [i]. *)
Lemma section_marker_at db content_ i raw m :
  split_on ch_newline content_ !! i = Some raw ->
  (m ∈ detect_section_patterns db content_ /\ m_line m = i + 1)
  <-> section_step db i raw (drop (S i) (split_on ch_newline content_)) = Some m.
Proof.
  intros Hi. unfold detect_section_patterns. rewrite section_loop_scan, elem_of_scan.
  cbn [Nat.add]. split.
  - intros [(k & raw' & Hk & Hstep) Hline].
    pose proof (section_step_line _ _ _ _ _ Hstep) as Hl.
    assert (k = i) as -> by lia. congruence.
  - intros Hstep. split; [exists i, raw; auto|].
    eapply section_step_line; exact Hstep.
Qed.

Lemma story_marker_at db content_ i raw m :
  split_on ch_newline content_ !! i = Some raw ->
  (m ∈ detect_story_boundaries db content_ /\ m_line m = i + 1)
  <-> story_step db (length (split_on ch_newline content_)) i raw
        (drop (S i) (split_on ch_newline content_)) = Some m.
Proof.
  intros Hi. unfold detect_story_boundaries. rewrite story_loop_scan, elem_of_scan.
  cbn [Nat.add]. split.
  - intros [(k & raw' & Hk & Hstep) Hline].
    pose proof (story_step_line _ _ _ _ _ _ Hstep) as Hl.
    assert (k = i) as -> by lia. congruence.
  - intros Hstep. split; [exists i, raw; auto|].
    eapply story_step_line; exact Hstep.
Qed.

Lemma skip_blank_ge i rest : i <= skip_blank i rest.
Proof.
  revert i. induction rest as [|l rest IH]; intros i; cbn [skip_blank]; [lia|].
  destruct (strip l); [|lia]. specialize (IH (S i)). lia.
Qed.

Lemma skip_blank_all_blank i rest :
  Forall (fun l => strip l = []) rest -> skip_blank i rest = i + length rest.
Proof.
  intros H. revert i. induction H as [|l rest Hl _ IH]; intros i; cbn [skip_blank length].
  - lia.
  - rewrite Hl, IH. lia.
Qed.

(** C3. For a line of trimmed length at least 10 that matches a story
    pattern, the story detector produces a marker exactly when at least 10
    lines of the document lie strictly after the inferred content-start
    line; the marker carries the trimmed line as its title.  A heading
    followed only by blank lines, and a heading with at most ten lines after
    it, get no marker. *)
Theorem story_marker_iff_ten_lines_after
    (db : unicode_db) (content_ : str) (i : nat) (raw : str) :
  let lines := split_on ch_newline content_ in
  lines !! i = Some raw ->
  10 <= len (strip raw) ->
  is_Some (first_match (story_indicators db) (strip raw)) ->
  (has_marker_at (detect_story_boundaries db content_) i
   <-> 10 <= lines_after lines (content_start_of lines i))
  /\ (forall m, m ∈ detect_story_boundaries db content_ -> m_line m = i + 1 ->
        m = {| m_title := strip raw; m_line := i + 1;
               m_start_content := content_start_of lines i + 1 |})
  /\ (Forall (fun l => strip l = []) (drop (i + 1) lines) ->
        ~ has_marker_at (detect_story_boundaries db content_) i)
  /\ (length lines <= i + 11 ->
        ~ has_marker_at (detect_story_boundaries db content_) i).
Proof.
  intros lines Hi Hlen [p Hp].
  assert (Hstep : story_step db (length lines) i raw (drop (S i) lines)
            = if (Z.of_nat (content_start_of lines i) <? Z.of_nat (length lines) - 10)%Z
              then Some {| m_title := strip raw; m_line := i + 1;
                           m_start_content := content_start_of lines i + 1 |}
              else None).
  { unfold story_step, content_start_of. rewrite Hp, Nat.add_1_r.
    destruct (strip raw) as [|c l] eqn:Hs; [simpl in Hlen; lia|].
    destruct (Nat.ltb_spec (len (c :: l)) 10); [lia|]. reflexivity. }
  assert (Hiff : has_marker_at (detect_story_boundaries db content_) i
                 <-> 10 <= lines_after lines (content_start_of lines i)).
  { unfold has_marker_at, lines_after. split.
    - intros (m & Hm). apply (story_marker_at db content_ i raw m Hi) in Hm.
      fold lines in Hm. rewrite Hstep in Hm.
      destruct (Z.ltb_spec (Z.of_nat (content_start_of lines i))
                  (Z.of_nat (length lines) - 10)); [lia|discriminate].
    - intros Hten. eexists. apply (story_marker_at db content_ i raw _ Hi).
      fold lines. rewrite Hstep.
      destruct (Z.ltb_spec (Z.of_nat (content_start_of lines i))
                  (Z.of_nat (length lines) - 10)); [reflexivity|lia]. }
  split; [exact Hiff|]. split; [|split].
  - intros m Hm Hline.
    pose proof (proj1 (story_marker_at db content_ i raw m Hi) (conj Hm Hline)) as H.
    fold lines in H. rewrite Hstep in H.
    destruct (_ <? _)%Z; [|discriminate]. congruence.
  - intros Hblank Hm. apply Hiff in Hm. unfold lines_after, content_start_of in Hm.
    rewrite skip_blank_all_blank in Hm by exact Hblank.
    rewrite length_drop in Hm. apply lookup_lt_Some in Hi. lia.
  - intros Hshort Hm. apply Hiff in Hm. unfold lines_after, content_start_of in Hm.
    pose proof (skip_blank_ge (i + 1) (drop (i + 1) lines)). lia.
Qed.

Lemma story_marker_iff_ten_lines_after_witness :
  split_on ch_newline doc_short_story !! 0 = Some (S_ "CHAPTER ONE")
  /\ 10 <= len (strip (S_ "CHAPTER ONE"))
  /\ is_Some (first_match (story_indicators ascii_db) (strip (S_ "CHAPTER ONE")))
  /\ (has_marker_at (detect_story_boundaries ascii_db doc_short_story) 0
      <-> 10 <= lines_after (split_on ch_newline doc_short_story)
                  (content_start_of (split_on ch_newline doc_short_story) 0)).
Proof.
  assert (H1 : split_on ch_newline doc_short_story !! 0 = Some (S_ "CHAPTER ONE"))
    by (vm_compute; reflexivity).
  assert (H2 : 10 <= len (strip (S_ "CHAPTER ONE"))) by (vm_compute; lia).
  assert (H3 : is_Some (first_match (story_indicators ascii_db) (strip (S_ "CHAPTER ONE"))))
    by (vm_compute; eexists; reflexivity).
  split; [exact H1|]. split; [exact H2|]. split; [exact H3|].
  apply (story_marker_iff_ten_lines_after ascii_db doc_short_story 0 _ H1 H2 H3).
Defined.

Lemma is_Some_find {A} (f : A -> bool) (l : list A) :
  is_Some (List.find f l) <-> existsb f l = true.
Proof.
  induction l as [|x l IH]; cbn [List.find existsb].
  - split; [intros [? ?]; discriminate|discriminate].
  - destruct (f x); [split; eauto|exact IH].
Qed.

(** The fallback detector's own list is the amended list in another
    order. *)
Lemma section_patterns_amended db line :
  is_Some (first_match (section_patterns db) line)
  <-> is_Some (first_match (amended_section_patterns db) line).
Proof.
  unfold first_match. rewrite !is_Some_find.
  unfold section_patterns, amended_section_patterns, policy_a_patterns.
  cbn [existsb app].
  generalize (re_match pat_all_caps line), (re_match pat_title_colon line),
    (re_match (pat_numbered db "Chapter") line), (re_match (pat_numbered db "Part") line),
    (re_match (pat_numbered db "Section") line), (re_match (pat_numbered db "Story") line),
    (re_match (pat_title_case 10) line).
  intros [] [] [] [] [] [] []; cbn; tauto.
Qed.

Lemma first_match_nonempty patterns line :
  Forall (fun p => re_match p [] = false) patterns ->
  is_Some (first_match patterns line) -> line <> [].
Proof.
  intros Hne Hm ->. unfold first_match in Hm. apply is_Some_find in Hm.
  apply existsb_exists in Hm as (p & Hin & Hp).
  rewrite Forall_forall in Hne. apply list_elem_of_In in Hin.
  rewrite (Hne p Hin) in Hp. discriminate.
Qed.

Lemma section_patterns_nonempty db :
  Forall (fun p => re_match p [] = false) (section_patterns db).
Proof. repeat constructor. Qed.

(** C2, as amended. The fallback detector marks exactly the lines whose
    trimmed text matches one of: the story detector's patterns with the
    length floor of the title-case pattern lowered from 15 to 10, the
    title-case line ending in a colon, or Section followed by a number.  No
    guard on the following content and no minimum length applies, and the
    marker carries the trimmed line as its title. *)
Theorem section_detector_marks
    (db : unicode_db) (content_ : str) (i : nat) (raw : str) :
  let lines := split_on ch_newline content_ in
  lines !! i = Some raw ->
  (has_marker_at (detect_section_patterns db content_) i
   <-> is_Some (first_match (amended_section_patterns db) (strip raw)))
  /\ (forall m, m ∈ detect_section_patterns db content_ -> m_line m = i + 1 ->
        m = {| m_title := strip raw; m_line := i + 1;
               m_start_content := content_start_of lines i + 1 |})
  /\ story_indicators db = policy_a_patterns db 15.
Proof.
  intros lines Hi. split; [|split; [|reflexivity]].
  - rewrite <- section_patterns_amended. unfold has_marker_at. split.
    + intros (m & Hm). apply (section_marker_at db content_ i raw m Hi) in Hm.
      unfold section_step in Hm. destruct (strip raw); [discriminate|].
      destruct (first_match _ _); [eauto|discriminate].
    + intros Hp.
      pose proof (first_match_nonempty _ _ (section_patterns_nonempty db) Hp) as Hne.
      destruct Hp as [p Hp].
      exists {| m_title := strip raw; m_line := i + 1;
                m_start_content := skip_blank (i + 1) (drop (S i) lines) + 1 |}.
      apply (section_marker_at db content_ i raw _ Hi).
      unfold section_step. rewrite Hp. destruct (strip raw); [congruence|reflexivity].
  - intros m Hm Hline.
    pose proof (proj1 (section_marker_at db content_ i raw m Hi) (conj Hm Hline)) as H.
    unfold section_step in H. destruct (strip raw); [discriminate|].
    destruct (first_match _ _); [|discriminate].
    unfold content_start_of. subst lines.
    replace (drop (i + 1)) with (drop (A:=str) (S i)) by (f_equal; lia).
    congruence.
Qed.

Lemma section_detector_marks_witness :
  split_on ch_newline (S_ "Section 1") !! 0 = Some (S_ "Section 1")
  /\ (has_marker_at (detect_section_patterns ascii_db (S_ "Section 1")) 0
      <-> is_Some (first_match (amended_section_patterns ascii_db) (strip (S_ "Section 1")))).
Proof.
  assert (H1 : split_on ch_newline (S_ "Section 1") !! 0 = Some (S_ "Section 1"))
    by (vm_compute; reflexivity).
  split; [exact H1|].
  apply (section_detector_marks ascii_db (S_ "Section 1") 0 _ H1).
Defined.

(** C2, as stated, fails.  The one-line document Section 1 gets a marker
    although it matches none of the stated patterns, and the one-line
    document Hello gets none although it is a title-case line: the floor is
    lowered, not removed. *)
Lemma section_detector_not_as_stated :
  detect_section_patterns ascii_db (S_ "Section 1")
  = [ {| m_title := S_ "Section 1"; m_line := 1; m_start_content := 2 |} ]
  /\ first_match (stated_section_patterns ascii_db) (S_ "Section 1") = None
  /\ detect_section_patterns ascii_db (S_ "Hello") = []
  /\ is_Some (first_match (stated_section_patterns ascii_db) (S_ "Hello"))
  /\ ~ marks_lines_matching ascii_db (stated_section_patterns ascii_db).
Proof.
  split; [vm_compute; reflexivity|]. split; [vm_compute; reflexivity|].
  split; [vm_compute; reflexivity|]. split; [vm_compute; eexists; reflexivity|].
  intros H.
  specialize (H (S_ "Section 1") 0 (S_ "Section 1") eq_refl).
  destruct H as [H _].
  assert (Hm : has_marker_at (detect_section_patterns ascii_db (S_ "Section 1")) 0).
  { exists {| m_title := S_ "Section 1"; m_line := 1; m_start_content := 2 |}.
    split; [|reflexivity].
    replace (detect_section_patterns ascii_db (S_ "Section 1"))
      with [ {| m_title := S_ "Section 1"; m_line := 1; m_start_content := 2 |} ]
      by (vm_compute; reflexivity).
    apply list_elem_of_here. }
  apply H in Hm. destruct Hm as [p Hp]. vm_compute in Hp. discriminate.
Qed.

(** ** The driver *)

Lemma with_files_same w : with_files (files w) w = w.
Proof. destruct w. reflexivity. Qed.

Lemma bind_run {A B} (m : M A) (k : A -> M B) w :
  (m ≫= k) w
  = match m w with
    | (inl e, w') => (inl e, w')
    | (inr x, w') => k x w'
    end.
Proof. reflexivity. Qed.

Lemma print_run s w : print s w = (inr tt, with_stdout (stdout w ++ [s]) w).
Proof. reflexivity. Qed.

(** Streaming the chunks into an open file writes the encodings of the
    first [k] chunks, all of them unless the encoder refuses one. *)
Lemma write_chunks_outcome rt path chunks w old :
  files w !! locate w path = Some old ->
  exists k written,
    k <= length chunks
    /\ encode_all rt (take k chunks) = Some written
    /\ snd (write_chunks rt path chunks w)
       = with_files (<[locate w path := old ++ written]> (files w)) w
    /\ ((fst (write_chunks rt path chunks w) = inr tt /\ k = length chunks)
        \/ fst (write_chunks rt path chunks w) = inl UnicodeEncodeError).
Proof.
  revert w old. induction chunks as [|chunk rest IH]; intros w old Hold.
  - exists 0, []. cbn [write_chunks length take encode_all fst snd mret M_ret].
    rewrite app_nil_r, insert_id by exact Hold. rewrite with_files_same.
    split; [lia|]. split; [reflexivity|]. split; [reflexivity|].
    left. split; reflexivity.
  - cbn [write_chunks]. unfold mbind, M_bind, write_chunk.
    destruct (encode_utf8 rt chunk) as [bytes|] eqn:Henc.
    + rewrite Hold. change (default [] (Some old)) with old. cbn beta iota.
      set (w1 := with_files (<[locate w path := old ++ bytes]> (files w)) w).
      destruct (IH w1 (old ++ bytes)) as (k & written & Hk & Hall & Hsnd & Hfst).
      { subst w1. cbn [files locate with_files]. apply lookup_insert_eq. }
      exists (S k), (bytes ++ written). split; [simpl; lia|].
      split; [cbn [take encode_all]; rewrite Henc, Hall; reflexivity|].
      split.
      * rewrite Hsnd. subst w1. unfold with_files. cbn [files locate denied stdout].
        rewrite insert_insert_eq, app_assoc. reflexivity.
      * destruct Hfst as [[Hf Hlen]|Hf]; [left|right]; rewrite Hf; [split|]; simpl; auto.
    + exists 0, []. cbn [fst snd take encode_all length].
      rewrite app_nil_r, insert_id by exact Hold. rewrite with_files_same.
      split; [lia|]. split; [reflexivity|]. split; [reflexivity|].
      right. reflexivity.
Qed.

(** [json.dump] into a refused file raises and changes nothing; into any
    other file it leaves the encodings of the first [k] chunks. *)
Lemma json_dump_outcome rt path chunks w :
  match denied w !! locate w path with
  | Some e => json_dump rt path chunks w = (inl e, w)
  | None =>
      exists k written,
        k <= length chunks
        /\ encode_all rt (take k chunks) = Some written
        /\ snd (json_dump rt path chunks w)
           = with_files (<[locate w path := written]> (files w)) w
        /\ ((fst (json_dump rt path chunks w) = inr tt /\ k = length chunks)
            \/ fst (json_dump rt path chunks w) = inl UnicodeEncodeError)
  end.
Proof.
  unfold json_dump, mbind, M_bind, open_write.
  destruct (denied w !! locate w path) as [e|]; [reflexivity|].
  set (w1 := with_files (<[locate w path := []]> (files w)) w).
  destruct (write_chunks_outcome rt path chunks w1 [])
    as (k & written & Hk & Hall & Hsnd & Hfst).
  { subst w1. cbn [files locate with_files]. apply lookup_insert_eq. }
  exists k, written. split; [exact Hk|]. split; [exact Hall|].
  split; [|exact Hfst].
  rewrite Hsnd. subst w1. unfold with_files. cbn [files locate denied stdout app].
  rewrite insert_insert_eq. reflexivity.
Qed.

(** Reading the input: the text of the file, decoded as UTF-8 or else as
    latin-1, or [FileNotFoundError]; the world stays as it is. *)
Lemma read_input_outcome rt input_file w :
  try_except (read_text (decode_utf8 rt) input_file)
    (fun e => match e with
              | UnicodeDecodeError => read_text decode_latin1 input_file
              | _ => raise e
              end) w
  = match files w !! locate w input_file with
    | None => (inl (FileNotFoundError input_file), w)
    | Some bytes => (inr (text_of_bytes rt bytes), w)
    end.
Proof.
  unfold try_except, read_text, raise, decode_latin1, text_of_bytes.
  destruct (files w !! locate w input_file) as [bytes|] eqn:Hin; [|reflexivity].
  destruct (decode_utf8 rt bytes); [reflexivity|]. rewrite Hin. reflexivity.
Qed.

(** The three ways a run of [convert_book_to_json] can go. *)
Lemma convert_book_to_json_outcome rt input_file output_file w :
  match files w !! locate w input_file with
  | None =>
      convert_book_to_json rt input_file output_file w
      = (inl (FileNotFoundError input_file),
         with_stdout (stdout w ++ [S_ "Reading text from: " ++ input_file]) w)
  | Some bytes =>
      let chunks := json_chunks_book rt (assemble rt input_file (text_of_bytes rt bytes)) in
      match denied w !! locate w output_file with
      | Some e =>
          convert_book_to_json rt input_file output_file w
          = (inl e,
             with_stdout (stdout w ++ [S_ "Reading text from: " ++ input_file;
                                       S_ "Analyzing content structure...";
                                       S_ "Writing structured JSON to: " ++ output_file]) w)
      | None =>
          exists k written,
            k <= length chunks
            /\ encode_all rt (take k chunks) = Some written
            /\ files (snd (convert_book_to_json rt input_file output_file w))
               = <[locate w output_file := written]> (files w)
            /\ ((fst (convert_book_to_json rt input_file output_file w) = inr tt
                 /\ k = length chunks)
                \/ fst (convert_book_to_json rt input_file output_file w)
                   = inl UnicodeEncodeError)
      end
  end.
Proof.
  assert (Hread : forall w0,
            locate w0 = locate w -> files w0 = files w ->
            try_except (read_text (decode_utf8 rt) input_file)
              (fun e => match e with
                        | UnicodeDecodeError => read_text decode_latin1 input_file
                        | _ => raise e
                        end) w0
            = match files w !! locate w input_file with
              | None => (inl (FileNotFoundError input_file), w0)
              | Some bytes => (inr (text_of_bytes rt bytes), w0)
              end).
  { intros w0 Hl Hf. rewrite read_input_outcome, Hl, Hf. reflexivity. }
  destruct (files w !! locate w input_file) as [bytes|] eqn:Hin.
  - cbn zeta. unfold convert_book_to_json.
    rewrite bind_run, print_run. cbn beta iota.
    rewrite bind_run, Hread by reflexivity. cbn beta iota.
    rewrite bind_run, print_run. cbn beta iota.
    rewrite bind_run, print_run. cbn beta iota.
    rewrite bind_run.
    match goal with
    | |- context [json_dump rt output_file ?c ?w0] =>
        pose proof (json_dump_outcome rt output_file c w0) as Hdump;
        set (w3 := w0) in *
    end.
    assert (Hd : denied w3 = denied w) by reflexivity.
    assert (Hl : locate w3 = locate w) by reflexivity.
    assert (Hf : files w3 = files w) by reflexivity.
    rewrite Hd, Hl in Hdump.
    destruct (denied w !! locate w output_file) as [e|].
    + rewrite Hdump. subst w3. unfold with_stdout. cbn [locate files denied stdout].
      rewrite <- !app_assoc. reflexivity.
    + destruct Hdump as (k & written & Hk & Hall & Hsnd & Hfst).
      exists k, written. split; [exact Hk|]. split; [exact Hall|].
      destruct (json_dump rt output_file _ w3) as [[e|[]] w4] eqn:Hrun;
        cbn [fst snd] in *; subst w4.
      * split; [rewrite Hf; reflexivity|].
        destruct Hfst as [[Habs _]|He]; [discriminate|]. right. exact He.
      * split; [rewrite Hf; reflexivity|]. left.
        destruct Hfst as [[_ Hlen]|Habs]; [|discriminate]. split; [reflexivity|exact Hlen].
  - unfold convert_book_to_json.
    rewrite bind_run, print_run. cbn beta iota.
    rewrite bind_run, Hread by reflexivity. reflexivity.
Qed.

(** C8. With the input file missing, the driver prints the file-not-found
    report (not the generic error line), returns normally and leaves every
    file as it was; [convert_book_to_json] then raises before it opens
    anything.  In general the output file is opened only after the document
    has been assembled from the text read: a run that raises having changed
    a file, and a run that returns, have read the input, and the only file
    they changed is the output, which holds the encoded chunks of the dump
    of the assembled document (all of them when the run returns, the first
    few when a write raised). *)
Theorem missing_input_writes_nothing (rt : runtime) (a : args) (w : world) :
  (files w !! locate w (a_input_file a) = None ->
   main rt a w
   = (inr tt, with_stdout (stdout w ++ not_found_report (a_input_file a)) w))
  /\ (forall input_file output_file,
        files w !! locate w input_file = None ->
        fst (convert_book_to_json rt input_file output_file w)
        = inl (FileNotFoundError input_file)
        /\ files (snd (convert_book_to_json rt input_file output_file w)) = files w)
  /\ (forall input_file output_file e w',
        convert_book_to_json rt input_file output_file w = (inl e, w') ->
        files w' <> files w ->
        exists bytes k written,
          files w !! locate w input_file = Some bytes
          /\ encode_all rt
               (take k (json_chunks_book rt
                          (assemble rt input_file (text_of_bytes rt bytes))))
             = Some written
          /\ files w' = <[locate w output_file := written]> (files w))
  /\ (forall input_file output_file u w',
        convert_book_to_json rt input_file output_file w = (inr u, w') ->
        exists bytes written,
          files w !! locate w input_file = Some bytes
          /\ encode_all rt
               (json_chunks_book rt (assemble rt input_file (text_of_bytes rt bytes)))
             = Some written
          /\ files w' = <[locate w output_file := written]> (files w)).
Proof.
  split; [|split; [|split]].
  - intros Hmissing. unfold main, try_except.
    unfold mbind at 1, M_bind at 1.
    match goal with
    | |- context [convert_book_to_json rt ?i ?o w] =>
        pose proof (convert_book_to_json_outcome rt i o w) as Hrun
    end.
    rewrite Hmissing in Hrun. rewrite Hrun.
    unfold mbind, M_bind, print, with_stdout, not_found_report.
    cbn [locate files denied stdout]. rewrite <- !app_assoc. reflexivity.
  - intros input_file output_file Hmissing.
    pose proof (convert_book_to_json_outcome rt input_file output_file w) as Hrun.
    rewrite Hmissing in Hrun. rewrite Hrun. split; reflexivity.
  - intros input_file output_file e w' Hrun Hchanged.
    pose proof (convert_book_to_json_outcome rt input_file output_file w) as H.
    rewrite Hrun in H. cbn [fst snd] in H.
    destruct (files w !! locate w input_file) as [bytes|].
    + cbn zeta in H. destruct (denied w !! locate w output_file) as [e'|].
      * injection H as _ ->. exfalso. apply Hchanged. reflexivity.
      * destruct H as (k & written & _ & Hall & Hfiles & _).
        exists bytes, k, written. auto.
    + injection H as _ ->. exfalso. apply Hchanged. reflexivity.
  - intros input_file output_file u w' Hrun.
    pose proof (convert_book_to_json_outcome rt input_file output_file w) as H.
    rewrite Hrun in H. cbn [fst snd] in H.
    destruct (files w !! locate w input_file) as [bytes|]; [|discriminate].
    cbn zeta in H. destruct (denied w !! locate w output_file) as [e'|]; [discriminate|].
    destruct H as (k & written & _ & Hall & Hfiles & [[_ Hlen]|Habs]); [|discriminate].
    exists bytes, written. split; [reflexivity|]. split; [|exact Hfiles].
    rewrite Hlen, firstn_all in Hall. exact Hall.
Qed.

Lemma missing_input_writes_nothing_witness :
  files empty_world !! locate empty_world (S_ "book.txt") = None
  /\ main small_runtime
       {| a_input_file := S_ "book.txt"; a_output := None; a_individual := true |}
       empty_world
     = (inr tt, with_stdout (not_found_report (S_ "book.txt")) empty_world).
Proof.
  split; [reflexivity|].
  apply (missing_input_writes_nothing small_runtime
           {| a_input_file := S_ "book.txt"; a_output := None; a_individual := true |}
           empty_world).
  reflexivity.
Defined.

(** The driver on a world that has the input: one file is added, under the
    default output name, and the run ends with the closing messages. *)
Example main_on_book_world :
  let '(r, w') := main small_runtime
                    {| a_input_file := S_ "book.txt"; a_output := None; a_individual := false |}
                    book_world in
  r = inr tt
  /\ files w' !! S_ "book_structured.json"
     = Some (S_ "Full Content" ++ clean_text ascii_db doc_five_lines)
  /\ files w' !! S_ "book.txt" = Some doc_five_lines
  /\ last (stdout w') = Some (S_ "Main structured file: book_structured.json").
Proof. vm_compute. repeat split. Qed.

(** A write that raises leaves a truncated output behind.  The second
    heading of the document cannot be encoded by the minimal runtime: the
    run raises [UnicodeEncodeError] after the first section has been
    written, the output file holds that section alone, and [main] prints the
    generic error line. *)
Example failed_write_leaves_truncated_output :
  let '(r, w') := convert_book_to_json small_runtime (S_ "book.txt") (S_ "book.json")
                    no_break_space_world in
  r = inl UnicodeEncodeError
  /\ files w' !! S_ "book.json"
     = Some (S_ "CHAPTER ONE" ++ clean_text ascii_db
               (repeat_str (S_ "word ") 60 ++ [ch_newline; ch_newline]
                ++ S_ "CHAPTER" ++ [160%N] ++ S_ "TWO"))
  /\ last (stdout (snd (main small_runtime
                          {| a_input_file := S_ "book.txt";
                             a_output := Some (S_ "book.json");
                             a_individual := false |} no_break_space_world)))
     = Some (S_ "Error during conversion: ").
Proof. vm_compute. repeat split. Qed.

(** ** More on [clean_text] *)

Lemma lstrip_decomp s :
  exists ws, s = ws ++ lstrip s /\ Forall (fun c => is_space c = true) ws.
Proof.
  induction s as [|c s (ws & Heq & Hws)]; [exists []; split; [reflexivity|constructor]|].
  cbn [lstrip]. destruct (is_space c) eqn:Hc.
  - exists (c :: ws). split; [simpl; congruence|constructor; assumption].
  - exists []. split; [reflexivity|constructor].
Qed.

Lemma rstrip_decomp s :
  exists ws, s = rstrip s ++ ws /\ Forall (fun c => is_space c = true) ws.
Proof.
  destruct (lstrip_decomp (rev s)) as (ws & Heq & Hws).
  exists (rev ws). split.
  - unfold rstrip. rewrite <- rev_app_distr, <- Heq, rev_involutive. reflexivity.
  - apply Forall_rev. exact Hws.
Qed.

Lemma lstrip_head s c s' : lstrip s = c :: s' -> is_space c = false.
Proof.
  induction s as [|d s IH]; [discriminate|]. cbn [lstrip].
  destruct (is_space d) eqn:Hd; [exact IH|]. intros [= <- _]. exact Hd.
Qed.

Lemma split_from_spaces acc ws :
  Forall (fun c => is_space c = true) ws ->
  split_from acc ws = match acc with [] => [] | _ => [acc] end.
Proof.
  intros H. revert acc. induction H as [|c ws Hc _ IH]; intros acc; [reflexivity|].
  cbn [split_from]. rewrite Hc, IH. destruct acc; reflexivity.
Qed.

Lemma split_from_trailing_spaces acc a ws :
  Forall (fun c => is_space c = true) ws ->
  split_from acc (a ++ ws) = split_from acc a.
Proof.
  intros H. revert acc. induction a as [|c a IH]; intros acc.
  - rewrite app_nil_l, split_from_spaces by exact H. reflexivity.
  - cbn [app split_from]. destruct (is_space c); [destruct acc|]; rewrite IH; reflexivity.
Qed.

Lemma split_leading_spaces ws s :
  Forall (fun c => is_space c = true) ws -> split (ws ++ s) = split s.
Proof.
  induction 1 as [|c ws Hc _ IH]; [reflexivity|].
  unfold split in *. cbn [app split_from]. rewrite Hc. exact IH.
Qed.

Lemma split_strip s : split (strip s) = split s.
Proof.
  unfold strip.
  destruct (lstrip_decomp s) as (ws1 & H1 & Hws1).
  destruct (rstrip_decomp (lstrip s)) as (ws2 & H2 & Hws2).
  rewrite H1 at 2. rewrite split_leading_spaces by exact Hws1.
  rewrite H2 at 2. unfold split. rewrite split_from_trailing_spaces by exact Hws2.
  reflexivity.
Qed.

Lemma split_from_sub_ws_runs acc s :
  split_from acc (sub_ws_runs s) = split_from acc s.
Proof.
  revert acc. induction s as [|c s IH]; intros acc; [reflexivity|].
  cbn [sub_ws_runs]. destruct (is_space c) eqn:Hc.
  - destruct s as [|c' s]; [cbn [split_from]; rewrite Hc; reflexivity|].
    destruct (is_space c') eqn:Hc'.
    + rewrite IH. cbn [split_from]. rewrite Hc, Hc'. destruct acc; reflexivity.
    + change (split_from acc (ch_space :: sub_ws_runs (c' :: s)))
        with (match acc with
              | [] => split_from [] (sub_ws_runs (c' :: s))
              | _ => acc :: split_from [] (sub_ws_runs (c' :: s))
              end).
      rewrite IH. cbn [split_from]. rewrite Hc, Hc'. destruct acc; reflexivity.
  - cbn [split_from]. rewrite Hc. apply IH.
Qed.

Lemma sub_ws_runs_head c s :
  is_space c = false -> sub_ws_runs (c :: s) = c :: sub_ws_runs s.
Proof. intros Hc. cbn [sub_ws_runs]. rewrite Hc. reflexivity. Qed.

Lemma no_ws_run_cons c s :
  no_ws_run (c :: s)
  = match s with
    | c' :: _ => negb (is_space c && is_space c') && no_ws_run s
    | [] => true
    end.
Proof. reflexivity. Qed.

Lemma no_ws_run_sub_ws_runs s : no_ws_run (sub_ws_runs s) = true.
Proof.
  induction s as [|c s IH]; [reflexivity|].
  cbn [sub_ws_runs]. destruct (is_space c) eqn:Hc.
  - destruct s as [|c' s]; [reflexivity|].
    destruct (is_space c') eqn:Hc'; [exact IH|].
    rewrite no_ws_run_cons, IH. rewrite sub_ws_runs_head by exact Hc'.
    rewrite Hc', andb_false_r. reflexivity.
  - rewrite no_ws_run_cons, IH. destruct (sub_ws_runs s); [reflexivity|].
    rewrite Hc. reflexivity.
Qed.

Lemma sub_ws_runs_nonempty s : s <> [] -> sub_ws_runs s <> [].
Proof.
  induction s as [|c s IH]; [congruence|]. intros _. cbn [sub_ws_runs].
  destruct (is_space c); [|discriminate].
  destruct s as [|c' s]; [discriminate|].
  destruct (is_space c'); [apply IH|]; discriminate.
Qed.

Lemma sub_ws_runs_cons c s :
  sub_ws_runs (c :: s)
  = if is_space c
    then match s with
         | c' :: _ => if is_space c' then sub_ws_runs s else ch_space :: sub_ws_runs s
         | [] => [ch_space]
         end
    else c :: sub_ws_runs s.
Proof. reflexivity. Qed.

Lemma last_sub_ws_runs s :
  last (sub_ws_runs s) = (fun c => if is_space c then ch_space else c) <$> last s.
Proof.
  induction s as [|c s IH]; [reflexivity|].
  destruct s as [|c' s].
  - cbn. destruct (is_space c); reflexivity.
  - rewrite last_cons_cons, <- IH, (sub_ws_runs_cons c (c' :: s)). cbv beta iota.
    assert (Hcons : forall d, last (d :: sub_ws_runs (c' :: s)) = last (sub_ws_runs (c' :: s))).
    { intros d. destruct (sub_ws_runs (c' :: s)) eqn:Hs; [|apply last_cons_cons].
      exfalso. revert Hs. apply sub_ws_runs_nonempty. discriminate. }
    destruct (is_space c); [destruct (is_space c')|]; auto.
Qed.

Lemma strip_head s c s' : strip s = c :: s' -> is_space c = false.
Proof.
  unfold strip. intros H.
  destruct (rstrip_decomp (lstrip s)) as (ws & Heq & Hws).
  rewrite H in Heq. cbn [app] in Heq. eapply lstrip_head. exact Heq.
Qed.

Lemma last_rev_head (l : str) : last (rev l) = head l.
Proof. destruct l as [|x l]; [reflexivity|]. cbn [rev]. apply last_snoc. Qed.

Lemma strip_last s c : last (strip s) = Some c -> is_space c = false.
Proof.
  unfold strip, rstrip. rewrite last_rev_head. intros H.
  destruct (lstrip (rev (lstrip s))) as [|d l] eqn:Hl; [discriminate|].
  injection H as ->. eapply lstrip_head. exact Hl.
Qed.

Lemma sub_marked_no_open s :
  Forall (fun c => c <> ch_open) s -> sub_marked false s = s.
Proof.
  induction 1 as [|c s Hc _ IH]; [reflexivity|]. cbn [sub_marked].
  destruct (N.eqb_spec c ch_open); [contradiction|]. cbn [andb]. rewrite IH. reflexivity.
Qed.

Lemma filter_all {A} (f : A -> bool) l :
  Forall (fun x => f x = true) l -> List.filter f l = l.
Proof.
  induction 1 as [|x l Hx _ IH]; [reflexivity|]. simpl. rewrite Hx, IH. reflexivity.
Qed.

Lemma lstrip_Forall (P : char -> Prop) s : Forall P s -> Forall P (lstrip s).
Proof.
  induction 1 as [|c s Hc Hs IH]; [constructor|]. cbn [lstrip].
  destruct (is_space c); [exact IH|constructor; assumption].
Qed.

Lemma strip_Forall (P : char -> Prop) s : Forall P s -> Forall P (strip s).
Proof.
  intros H. unfold strip, rstrip.
  apply Forall_rev, lstrip_Forall, Forall_rev, lstrip_Forall, H.
Qed.

Lemma sub_ws_runs_Forall (P : char -> Prop) s :
  P ch_space -> Forall P s -> Forall P (sub_ws_runs s).
Proof.
  intros Hsp. induction 1 as [|c s Hc Hs IH]; [constructor|]. cbn [sub_ws_runs].
  destruct (is_space c).
  - destruct s as [|c' s]; [repeat constructor; exact Hsp|].
    destruct (is_space c'); [exact IH|constructor; [exact Hsp|exact IH]].
  - constructor; assumption.
Qed.

(** When the text holds nothing that [clean_text] deletes (no character
    outside the kept alphabet, no opening marker bracket), the result is
    the trimmed text with its whitespace runs collapsed: it is single-spaced,
    free of newlines, trimmed, and has the words of the text. *)
Theorem clean_text_without_deletions (db : unicode_db) (text : str) :
  Forall (fun c => is_special db c = false) text ->
  Forall (fun c => c <> ch_open) text ->
  clean_text db text = sub_ws_runs (strip text)
  /\ single_spaced (clean_text db text) = true
  /\ split (clean_text db text) = split text.
Proof.
  intros Hkept Hopen.
  assert (Heq : clean_text db text = sub_ws_runs (strip text)).
  { unfold clean_text, sub_special.
    rewrite sub_marked_no_open
      by (apply sub_ws_runs_Forall; [discriminate|apply strip_Forall; exact Hopen]).
    apply filter_all.
    apply (sub_ws_runs_Forall (fun c => negb (is_special db c) = true)).
    - reflexivity.
    - apply strip_Forall. eapply Forall_impl; [exact Hkept|].
      intros c Hc. cbn beta in Hc. rewrite Hc. reflexivity. }
  split; [exact Heq|]. split.
  - unfold single_spaced. rewrite !andb_true_iff. split; [split|].
    + rewrite Heq. apply no_ws_run_sub_ws_runs.
    + apply forallb_forall. intros c Hc. apply list_elem_of_In in Hc.
      pose proof (clean_text_only_plain_spaces db text) as Hsp.
      rewrite Forall_forall in Hsp. specialize (Hsp c Hc).
      destruct (N.eqb_spec c ch_newline) as [->|]; [|reflexivity].
      specialize (Hsp eq_refl). discriminate.
    + rewrite Heq. unfold trimmed.
      destruct (strip text) as [|c s] eqn:Hs; [reflexivity|].
      pose proof (strip_head _ _ _ Hs) as Hc.
      rewrite sub_ws_runs_head by exact Hc.
      rewrite <- (sub_ws_runs_head c s Hc), last_sub_ws_runs, <- Hs.
      destruct (last (strip text)) as [d|] eqn:Hl; [|reflexivity].
      cbn. rewrite Hc. apply strip_last in Hl. rewrite Hl, Hl. reflexivity.
  - rewrite Heq. unfold split. rewrite split_from_sub_ws_runs. apply split_strip.
Qed.

Lemma clean_text_without_deletions_witness :
  Forall (fun c => is_special ascii_db c = false) (S_ "  a  b, (c) ")
  /\ Forall (fun c => c <> ch_open) (S_ "  a  b, (c) ")
  /\ clean_text ascii_db (S_ "  a  b, (c) ") = sub_ws_runs (strip (S_ "  a  b, (c) ")).
Proof.
  assert (H1 : Forall (fun c => is_special ascii_db c = false) (S_ "  a  b, (c) "))
    by (repeat constructor).
  assert (H2 : Forall (fun c => c <> ch_open) (S_ "  a  b, (c) "))
    by (repeat constructor; discriminate).
  split; [exact H1|]. split; [exact H2|].
  apply (clean_text_without_deletions ascii_db (S_ "  a  b, (c) ") H1 H2).
Defined.

Lemma lstrip_length s : length (lstrip s) <= length s.
Proof.
  induction s as [|c s IH]; [reflexivity|]. cbn [lstrip].
  destruct (is_space c); simpl; lia.
Qed.

Lemma sub_ws_runs_length s : length (sub_ws_runs s) <= length s.
Proof.
  induction s as [|c s IH]; [reflexivity|]. cbn [sub_ws_runs].
  destruct (is_space c).
  - destruct s as [|c' s]; [reflexivity|]. destruct (is_space c'); simpl in *; lia.
  - simpl. lia.
Qed.

Lemma sub_marked_length inside s : length (sub_marked inside s) <= length s.
Proof.
  revert inside. induction s as [|c s IH]; intros inside; [reflexivity|].
  cbn [sub_marked]. destruct inside.
  - destruct (c =? ch_close)%N; [specialize (IH false)|specialize (IH true)]; simpl; lia.
  - destruct (_ && _); [specialize (IH true)|specialize (IH false)]; simpl; lia.
Qed.

(** Normalisation never lengthens a text: every step of [clean_text] keeps
    or removes characters, and a whitespace run is replaced by one space. *)
Theorem clean_text_length (db : unicode_db) (text : str) :
  len (clean_text db text) <= len text.
Proof.
  unfold clean_text, sub_special, len.
  etransitivity; [apply List.filter_length_le|].
  etransitivity; [apply sub_marked_length|].
  etransitivity; [apply sub_ws_runs_length|].
  unfold strip, rstrip. rewrite length_rev.
  etransitivity; [apply lstrip_length|]. rewrite length_rev. apply lstrip_length.
Qed.

(** ** More on the detectors *)

Lemma at_least_weaken n r s : lang (at_least (S n) r) s -> lang (at_least n r) s.
Proof.
  revert s. induction n as [|n IH]; intros s; cbn [at_least].
  - inversion 1; subst. apply lang_star_more; assumption.
  - inversion 1 as [| |? ? s1 s2 H1 H2| | | |]; subst.
    apply lang_seq; [exact H1|]. apply IH. exact H2.
Qed.

Lemma title_case_15_10 s :
  re_match (pat_title_case 15) s = true -> re_match (pat_title_case 10) s = true.
Proof.
  assert (Hw : forall t, matches_whole (body (pat_title_case 15)) t = true ->
                         matches_whole (body (pat_title_case 10)) t = true).
  { intros t. rewrite !matches_whole_lang. cbn [body pat_title_case].
    inversion 1 as [| |? ? s1 s2 H1 H2| | | |]; subst.
    apply lang_seq; [exact H1|].
    do 5 apply at_least_weaken. exact H2. }
  unfold re_match. cbn [dollar pat_title_case].
  rewrite !orb_true_iff. intros [H|H]; [left; apply Hw; exact H|right].
  destruct (last s); [|discriminate].
  apply andb_true_iff in H as [Hn H]. rewrite Hn. apply Hw. exact H.
Qed.

Lemma story_indicators_in_section_patterns db line :
  is_Some (first_match (story_indicators db) line) ->
  is_Some (first_match (section_patterns db) line).
Proof.
  unfold first_match. rewrite !is_Some_find.
  unfold story_indicators, section_patterns. cbn [existsb].
  pose proof (title_case_15_10 line) as Htc. revert Htc.
  generalize (re_match pat_all_caps line), (re_match pat_title_colon line),
    (re_match (pat_numbered db "Chapter") line), (re_match (pat_numbered db "Part") line),
    (re_match (pat_numbered db "Section") line), (re_match (pat_numbered db "Story") line),
    (re_match (pat_title_case 10) line), (re_match (pat_title_case 15) line).
  intros [] [] [] [] [] [] [] []; cbn; intros Htc; try reflexivity; try discriminate.
  all: intros _; exact (Htc eq_refl).
Qed.

Lemma story_step_section_step db nlines i raw rest' m :
  story_step db nlines i raw rest' = Some m -> section_step db i raw rest' = Some m.
Proof.
  unfold story_step, section_step.
  destruct (strip raw) as [|c l]; [discriminate|].
  destruct (first_match (story_indicators db) (c :: l)) eqn:Hs; [|discriminate].
  destruct (story_indicators_in_section_patterns db (c :: l)) as [q Hq]; [eauto|].
  rewrite Hq. destruct (_ <? 10); [discriminate|].
  destruct (_ <? _)%Z; [trivial|discriminate].
Qed.

Lemma story_marker_is_section_marker
    (db : unicode_db) (content_ : str) (m : marker) :
  m ∈ detect_story_boundaries db content_ ->
  m ∈ detect_section_patterns db content_.
Proof.
  unfold detect_story_boundaries, detect_section_patterns.
  rewrite story_loop_scan, section_loop_scan, !elem_of_scan.
  intros (k & raw & Hk & Hstep). exists k, raw. split; [exact Hk|].
  eapply story_step_section_step. exact Hstep.
Qed.

(** Every marker of the story detector is also a marker of the fallback
    detector, with the same title, line and content start: the fallback can
    only add headings, never lose one. *)
Theorem story_markers_are_section_markers
    (db : unicode_db) (content_ : str) (m : marker) :
  m ∈ detect_story_boundaries db content_ ->
  m ∈ detect_section_patterns db content_.
Proof. apply story_marker_is_section_marker. Qed.

Lemma story_markers_are_section_markers_witness :
  {| m_title := S_ "CHAPTER ONE"; m_line := 1; m_start_content := 2 |}
    ∈ detect_story_boundaries ascii_db doc_short_story
  /\ {| m_title := S_ "CHAPTER ONE"; m_line := 1; m_start_content := 2 |}
       ∈ detect_section_patterns ascii_db doc_short_story.
Proof.
  assert (H : {| m_title := S_ "CHAPTER ONE"; m_line := 1; m_start_content := 2 |}
                ∈ detect_story_boundaries ascii_db doc_short_story).
  { replace (detect_story_boundaries ascii_db doc_short_story)
      with [ {| m_title := S_ "CHAPTER ONE"; m_line := 1; m_start_content := 2 |} ]
      by (vm_compute; reflexivity).
    apply list_elem_of_here. }
  split; [exact H|].
  apply (story_markers_are_section_markers ascii_db doc_short_story _ H).
Defined.

Lemma skip_blank_le i rest : skip_blank i rest <= i + length rest.
Proof.
  revert i. induction rest as [|l rest IH]; intros i; cbn [skip_blank length]; [lia|].
  destruct (strip l); [|lia]. specialize (IH (S i)). lia.
Qed.

Lemma skip_blank_blank i rest j l :
  rest !! j = Some l -> i + j < skip_blank i rest -> strip l = [].
Proof.
  revert i j. induction rest as [|l0 rest IH]; intros i j Hj Hlt; [discriminate|].
  cbn [skip_blank] in Hlt. destruct (strip l0) eqn:H0; [|lia].
  destruct j as [|j]; [injection Hj as <-; exact H0|].
  apply (IH (S i) j Hj). lia.
Qed.

Lemma skip_blank_stop i rest l :
  rest !! (skip_blank i rest - i) = Some l -> strip l <> [].
Proof.
  revert i. induction rest as [|l0 rest IH]; intros i; [discriminate|].
  cbn [skip_blank]. destruct (strip l0) eqn:H0.
  - pose proof (skip_blank_ge (S i) rest) as Hge.
    replace (skip_blank (S i) rest - i) with (S (skip_blank (S i) rest - S i)) by lia.
    apply IH.
  - rewrite Nat.sub_diag. intros [= <-]. congruence.
Qed.

Lemma skip_blank_le_nonblank i rest k l :
  rest !! k = Some l -> strip l <> [] -> skip_blank i rest <= i + k.
Proof.
  intros Hk Hl.
  destruct (Nat.le_gt_cases (skip_blank i rest) (i + k)) as [|Hgt]; [assumption|].
  exfalso. apply Hl. eapply skip_blank_blank; [exact Hk|exact Hgt].
Qed.

Lemma section_step_heading db : heading_step (section_step db).
Proof.
  intros i raw rest' m. unfold section_step.
  destruct (strip raw); [discriminate|].
  destruct (first_match _ _); [|discriminate]. intros [= <-].
  split; [discriminate|reflexivity].
Qed.

Lemma story_step_heading db nlines : heading_step (story_step db nlines).
Proof.
  intros i raw rest' m H. apply story_step_section_step in H.
  eapply section_step_heading. exact H.
Qed.

Lemma marker_points_at_heading (db : unicode_db) (content_ : str) (m : marker) :
  let lines := split_on ch_newline content_ in
  m ∈ detect_section_patterns db content_ ->
  (exists raw, lines !! (m_line m - 1) = Some raw
               /\ m_title m = strip raw /\ m_title m <> [])
  /\ 1 <= m_line m < m_start_content m
  /\ m_start_content m <= length lines + 1
  /\ (forall j l, m_line m <= j < m_start_content m - 1 ->
                  lines !! j = Some l -> strip l = [])
  /\ (forall l, lines !! (m_start_content m - 1) = Some l -> strip l <> []).
Proof.
  intros lines. unfold detect_section_patterns. fold lines.
  rewrite section_loop_scan, elem_of_scan. cbn [Nat.add].
  intros (k & raw & Hk & Hstep).
  apply section_step_heading in Hstep as [Hne ->]. cbn [m_title m_line m_start_content].
  pose proof (skip_blank_ge (k + 1) (drop (S k) lines)) as Hge.
  pose proof (skip_blank_le (k + 1) (drop (S k) lines)) as Hle.
  rewrite length_drop in Hle. pose proof (lookup_lt_Some _ _ _ Hk) as Hlt.
  split; [|split; [|split; [|split]]].
  - exists raw. replace (k + 1 - 1) with k by lia. auto.
  - lia.
  - lia.
  - intros j l Hj Hl.
    apply (skip_blank_blank (k + 1) (drop (S k) lines) (j - (k + 1)) l).
    + rewrite lookup_drop. replace (S k + (j - (k + 1))) with j by lia. exact Hl.
    + lia.
  - intros l Hl. apply (skip_blank_stop (k + 1) (drop (S k) lines) l).
    rewrite lookup_drop.
    replace (S k + (skip_blank (k + 1) (drop (S k) lines) - (k + 1)))
      with (skip_blank (k + 1) (drop (S k) lines) + 1 - 1) by lia.
    exact Hl.
Qed.

(** Where a marker points.  A marker of either detector names a line of the
    document whose trimmed text is its (non-empty) title; its content start
    lies strictly after that line and at most one past the last line; every
    line between the two is blank, and the content-start line, when it
    exists, is not blank. *)
Theorem marker_geometry (db : unicode_db) (content_ : str) (m : marker) :
  let lines := split_on ch_newline content_ in
  m ∈ detect_section_patterns db content_ ->
  (exists raw, lines !! (m_line m - 1) = Some raw
               /\ m_title m = strip raw /\ m_title m <> [])
  /\ 1 <= m_line m < m_start_content m
  /\ m_start_content m <= length lines + 1
  /\ (forall j l, m_line m <= j < m_start_content m - 1 ->
                  lines !! j = Some l -> strip l = [])
  /\ (forall l, lines !! (m_start_content m - 1) = Some l -> strip l <> []).
Proof. apply marker_points_at_heading. Qed.

Lemma marker_geometry_witness :
  {| m_title := S_ "CHAPTER ONE"; m_line := 1; m_start_content := 2 |}
    ∈ detect_section_patterns ascii_db doc_short_story
  /\ 1 <= 1 < 2
  /\ 2 <= length (split_on ch_newline doc_short_story) + 1.
Proof.
  assert (H : {| m_title := S_ "CHAPTER ONE"; m_line := 1; m_start_content := 2 |}
                ∈ detect_section_patterns ascii_db doc_short_story).
  { replace (detect_section_patterns ascii_db doc_short_story)
      with [ {| m_title := S_ "CHAPTER ONE"; m_line := 1; m_start_content := 2 |} ]
      by (vm_compute; reflexivity).
    apply list_elem_of_here. }
  split; [exact H|].
  pose proof (marker_geometry ascii_db doc_short_story _ H) as (_ & H1 & H2 & _).
  split; [exact H1|exact H2].
Defined.

Lemma scan_sorted step i rest :
  heading_step step -> StronglySorted marker_before (scan step i rest).
Proof.
  intros Hstep. revert i. induction rest as [|raw rest IH]; intros i; [constructor|].
  cbn [scan]. destruct (step i raw rest) as [m|] eqn:Hm; [|apply IH].
  constructor; [apply IH|].
  apply Hstep in Hm as [_ ->]. apply Forall_forall. intros m2 Hm2.
  apply elem_of_scan in Hm2 as (k & raw2 & Hk & H2).
  apply Hstep in H2 as [Hne ->]. unfold marker_before.
  cbn [m_line m_start_content].
  pose proof (skip_blank_le_nonblank (i + 1) rest k raw2 Hk Hne). lia.
Qed.

Lemma detectors_sorted (db : unicode_db) (content_ : str) :
  StronglySorted marker_before (detect_section_patterns db content_)
  /\ StronglySorted marker_before (detect_story_boundaries db content_).
Proof.
  unfold detect_section_patterns, detect_story_boundaries.
  rewrite section_loop_scan, story_loop_scan. split; apply scan_sorted.
  - apply section_step_heading.
  - apply story_step_heading.
Qed.

(** The markers of each detector are in document order, and the content of
    a heading starts at or before the next heading's line: the line range of
    a segment, which runs to the next content start, takes in the next
    heading line. *)
Theorem markers_in_document_order (db : unicode_db) (content_ : str) :
  StronglySorted marker_before (detect_section_patterns db content_)
  /\ StronglySorted marker_before (detect_story_boundaries db content_).
Proof. apply detectors_sorted. Qed.

Lemma split_on_nonempty sep s : 1 <= length (split_on sep s).
Proof.
  induction s as [|c s IH]; cbn [split_on]; [simpl; lia|].
  destruct (c =? sep)%N; [simpl; lia|].
  destruct (split_on sep s); simpl in *; lia.
Qed.

Lemma kept_slice_nonempty db (lines : list str) a b :
  (length (split (clean_text db (join [ch_newline] (slice lines a b)))) <? 50) = false ->
  a < b.
Proof.
  intros H. destruct (Nat.le_gt_cases b a) as [Hle|]; [|assumption].
  unfold slice in H. replace (b - a) with 0 in H by lia.
  rewrite take_0 in H. discriminate.
Qed.

Lemma sections_loop_ranges db lines stories :
  StronglySorted marker_before stories ->
  Forall (fun m => 1 <= m_line m < m_start_content m
                   /\ m_start_content m <= length lines + 1) stories ->
  StronglySorted segment_before (sections_loop db lines stories)
  /\ Forall (fun s => (forall a, head stories = Some a ->
                                 m_start_content a <= s_start_line s)
                      /\ range_within (length lines) s)
            (sections_loop db lines stories).
Proof.
  induction 1 as [|st rest Hsorted IH Hst]; intros Hb; [split; constructor|].
  apply Forall_cons in Hb as [Hbst Hbrest].
  destruct (IH Hbrest) as [IHs IHf]. clear IH. cbn [sections_loop].
  assert (Hrest : Forall (fun s => m_start_content st < s_start_line s
                                   /\ range_within (length lines) s)
                    (sections_loop db lines rest)).
  { destruct rest as [|nx rest']; [constructor|].
    apply Forall_cons in Hst as [[_ Hnx] _]. apply Forall_cons in Hbrest as [Hbnx _].
    eapply Forall_impl; [exact IHf|]. intros s [Hlow Hr]. split; [|exact Hr].
    specialize (Hlow nx eq_refl). lia. }
  destruct (_ <? 50) eqn:Hwords.
  - split; [exact IHs|]. eapply Forall_impl; [exact Hrest|].
    intros s [Hlow Hr]. split; [|exact Hr]. intros a [= <-]. lia.
  - apply kept_slice_nonempty in Hwords. split.
    + constructor; [exact IHs|].
      destruct rest as [|nx rest']; [constructor|].
      eapply Forall_impl; [exact IHf|]. intros s [Hlow _].
      unfold segment_before. cbn [s_end_line]. specialize (Hlow nx eq_refl).
      apply Forall_cons in Hbrest as [Hbnx _]. lia.
    + constructor.
      * cbn [s_start_line s_end_line]. split; [intros a [= <-]; cbn [s_start_line]; lia|].
        unfold range_within. cbn [s_start_line s_end_line].
        split; [lia|]. split; [lia|].
        destruct rest as [|nx rest']; [lia|].
        apply Forall_cons in Hbrest as [Hbnx _]. lia.
      * eapply Forall_impl; [exact Hrest|].
        intros s [Hlow Hr]. split; [|exact Hr]. intros a [= <-]. lia.
Qed.

Lemma section_markers_bounds db content_ :
  Forall (fun m => 1 <= m_line m < m_start_content m
                   /\ m_start_content m <= length (split_on ch_newline content_) + 1)
         (detect_section_patterns db content_).
Proof.
  apply Forall_forall. intros m Hm.
  pose proof (marker_points_at_heading db content_ m Hm) as (_ & H1 & H2 & _). auto.
Qed.

Lemma story_markers_bounds db content_ :
  Forall (fun m => 1 <= m_line m < m_start_content m
                   /\ m_start_content m <= length (split_on ch_newline content_) + 1)
         (detect_story_boundaries db content_).
Proof.
  apply Forall_forall. intros m Hm. apply story_marker_is_section_marker in Hm.
  pose proof (section_markers_bounds db content_) as H.
  rewrite Forall_forall in H. exact (H m Hm).
Qed.

Lemma extract_ranges db content_ :
  StronglySorted segment_before (extract_content_sections db content_)
  /\ Forall (range_within (length (split_on ch_newline content_)))
       (extract_content_sections db content_).
Proof.
  pose proof (detectors_sorted db content_) as [HsB HsA].
  pose proof (section_markers_bounds db content_) as HbB.
  pose proof (story_markers_bounds db content_) as HbA.
  unfold extract_content_sections.
  destruct (detect_story_boundaries db content_) as [|a la] eqn:HA.
  - destruct (detect_section_patterns db content_) as [|b lb] eqn:HB.
    + split; [repeat constructor|].
      repeat constructor; cbn [s_start_line s_end_line]; try lia.
      apply split_on_nonempty.
    + destruct (sections_loop_ranges db (split_on ch_newline content_) _ HsB HbB) as [H1 H2].
      split; [exact H1|]. eapply Forall_impl; [exact H2|]. intros s [_ Hr]. exact Hr.
  - destruct (sections_loop_ranges db (split_on ch_newline content_) _ HsA HbA) as [H1 H2].
    split; [exact H1|]. eapply Forall_impl; [exact H2|]. intros s [_ Hr]. exact Hr.
Qed.

(** Every segment reports a line range inside the document: the start line
    is at least 1, not after the end line, and the end line is at most the
    number of lines. *)
Theorem segment_ranges_within_document (db : unicode_db) (content_ : str) :
  Forall (range_within (length (split_on ch_newline content_)))
         (extract_content_sections db content_).
Proof. apply extract_ranges. Qed.

(** The segments come in document order and do not overlap: each one ends
    before any later one starts. *)
Theorem segments_in_document_order (db : unicode_db) (content_ : str) :
  StronglySorted segment_before (extract_content_sections db content_).
Proof. apply extract_ranges. Qed.

Lemma sections_loop_story db lines stories :
  Forall (fun s => s_type s = story
                   /\ 50 <= s_word_count s
                   /\ exists m, m ∈ stories /\ s_title s = m_title m
                                /\ s_start_line s = m_start_content m - 1 + 1)
         (sections_loop db lines stories).
Proof.
  induction stories as [|st rest IH]; [constructor|]. cbn [sections_loop].
  assert (Hrest : Forall (fun s => s_type s = story /\ 50 <= s_word_count s
                    /\ exists m, m ∈ st :: rest /\ s_title s = m_title m
                                 /\ s_start_line s = m_start_content m - 1 + 1)
                    (sections_loop db lines rest)).
  { eapply Forall_impl; [exact IH|]. intros s (H1 & H2 & m & Hm & H3).
    split; [exact H1|]. split; [exact H2|]. exists m. split; [|exact H3].
    apply list_elem_of_further. exact Hm. }
  destruct (Nat.ltb_spec (length (split (clean_text db
              (join [ch_newline] (slice lines (m_start_content st - 1)
                 match rest with
                 | [] => length lines
                 | next :: _ => m_start_content next - 1
                 end))))) 50) as [Hlt|Hge]; [exact Hrest|].
  constructor; [|exact Hrest]. cbn [s_type s_word_count s_title s_start_line].
  split; [reflexivity|]. split; [exact Hge|].
  exists st. split; [apply list_elem_of_here|]. split; reflexivity.
Qed.

Lemma story_segment_from_heading (db : unicode_db) (content_ : str) (s : section) :
  s ∈ extract_content_sections db content_ ->
  s_type s = story ->
  50 <= s_word_count s
  /\ exists m raw,
       m ∈ detect_section_patterns db content_
       /\ split_on ch_newline content_ !! (m_line m - 1) = Some raw
       /\ s_title s = strip raw
       /\ is_Some (first_match (section_patterns db) (s_title s))
       /\ s_start_line s = m_start_content m.
Proof.
  intros Hs Hstory.
  assert (Hloop : exists stories,
            s ∈ sections_loop db (split_on ch_newline content_) stories
            /\ forall m, m ∈ stories -> m ∈ detect_section_patterns db content_).
  { unfold extract_content_sections in Hs.
    destruct (detect_story_boundaries db content_) as [|a la] eqn:HA.
    - destruct (detect_section_patterns db content_) as [|b lb] eqn:HB.
      + apply list_elem_of_singleton in Hs. subst s. discriminate.
      + eexists. split; [exact Hs|auto].
    - eexists. split; [exact Hs|]. intros m Hm.
      apply story_marker_is_section_marker. rewrite HA. exact Hm. }
  destruct Hloop as (stories & Hin & Hsub).
  pose proof (sections_loop_story db (split_on ch_newline content_) stories) as Hall.
  rewrite Forall_forall in Hall.
  destruct (Hall s Hin) as (_ & Hwords & m & Hm & Htitle & Hstart).
  split; [exact Hwords|]. apply Hsub in Hm.
  pose proof (marker_points_at_heading db content_ m Hm) as ((raw & Hraw & Hmt & _) & Hline & _).
  exists m, raw. split; [exact Hm|]. split; [exact Hraw|].
  split; [congruence|]. split; [|lia].
  unfold detect_section_patterns in Hm.
  rewrite section_loop_scan, elem_of_scan in Hm.
  destruct Hm as (k & raw' & Hk & Hstep). unfold section_step in Hstep.
  destruct (strip raw') as [|c l] eqn:Hstrip; [discriminate|].
  destruct (first_match (section_patterns db) (c :: l)) eqn:Hfm; [|discriminate].
  injection Hstep as <-. rewrite Htitle. cbn [m_title]. eauto.
Qed.

(** A segment of kind [story] has at least 50 words, and its title is the
    trimmed text of a line of the document that matches one of the fallback
    detector's patterns; its start line is that heading's content start. *)
Theorem story_segment_origin (db : unicode_db) (content_ : str) (s : section) :
  s ∈ extract_content_sections db content_ ->
  s_type s = story ->
  50 <= s_word_count s
  /\ exists m raw,
       m ∈ detect_section_patterns db content_
       /\ split_on ch_newline content_ !! (m_line m - 1) = Some raw
       /\ s_title s = strip raw
       /\ is_Some (first_match (section_patterns db) (s_title s))
       /\ s_start_line s = m_start_content m.
Proof. apply story_segment_from_heading. Qed.

Lemma story_segment_origin_witness :
  exists s, s ∈ extract_content_sections ascii_db doc_two_chapters
            /\ s_type s = story /\ 50 <= s_word_count s.
Proof.
  destruct (extract_content_sections ascii_db doc_two_chapters) as [|s l] eqn:He;
    [vm_compute in He; discriminate|].
  assert (Hin : s ∈ extract_content_sections ascii_db doc_two_chapters)
    by (rewrite He; apply list_elem_of_here).
  assert (Hty : s_type s = story).
  { assert (H : Forall (fun s => s_type s = story)
                  (extract_content_sections ascii_db doc_two_chapters))
      by (vm_compute; repeat constructor).
    rewrite He in H. apply Forall_cons in H as [H _]. exact H. }
  exists s. rewrite <- He. split; [exact Hin|]. split; [exact Hty|].
  apply (story_segment_origin ascii_db doc_two_chapters s Hin Hty).
Defined.

Lemma extract_kinds db content_ :
  (exists s, extract_content_sections db content_ = [s] /\ s_type s = content)
  \/ Forall (fun s => s_type s = story /\ 50 <= s_word_count s)
       (extract_content_sections db content_).
Proof.
  unfold extract_content_sections.
  destruct (match detect_story_boundaries db content_ with
            | [] => detect_section_patterns db content_
            | _ => detect_story_boundaries db content_
            end) as [|m l].
  - left. eexists. split; reflexivity.
  - right. eapply Forall_impl; [apply sections_loop_story|].
    intros s (H1 & H2 & _). auto.
Qed.

Lemma filter_is_story_all sections :
  Forall (fun s => s_type s = story) sections ->
  List.filter is_story sections = sections.
Proof.
  intros H. apply filter_all. eapply Forall_impl; [exact H|].
  intros s Hs. unfold is_story. rewrite Hs. reflexivity.
Qed.

Lemma sum_of_at_least (f : section -> nat) n sections :
  Forall (fun s => n <= f s) sections -> n * length sections <= sum_of f sections.
Proof.
  induction 1 as [|s l Hs _ IH]; [simpl; lia|].
  unfold sum_of in *. cbn [foldr length]. lia.
Qed.

(** The counts of the assembled document.  Metadata and statistics carry
    the same two counts; either every segment is a story, or the document is
    the single full-content segment and has no story; and the total word
    count is at least 50 for each story. *)
Theorem assembled_counts (rt : runtime) (input_file content_ : str) :
  let book := assemble rt input_file content_ in
  md_total_sections (bj_metadata book) = st_total_sections (bj_statistics book)
  /\ md_stories (bj_metadata book) = st_stories (bj_statistics book)
  /\ (st_stories (bj_statistics book) = st_total_sections (bj_statistics book)
      \/ (st_stories (bj_statistics book) = 0
          /\ st_total_sections (bj_statistics book) = 1))
  /\ 50 * st_stories (bj_statistics book) <= st_total_words (bj_statistics book).
Proof.
  cbn zeta. unfold assemble, create_book_metadata.
  cbn [bj_metadata bj_statistics md_total_sections md_stories st_total_sections
       st_stories st_total_words].
  split; [reflexivity|]. split; [reflexivity|].
  destruct (extract_kinds (rt_unicode rt) content_) as [(s & -> & Hs)|Hall].
  - cbn [List.filter]. unfold is_story. rewrite Hs. cbn. split; [right; split; reflexivity|lia].
  - rewrite filter_is_story_all
      by (eapply Forall_impl; [exact Hall|]; intros s [H _]; exact H).
    split; [left; reflexivity|].
    apply sum_of_at_least. eapply Forall_impl; [exact Hall|]. intros s [_ H]. exact H.
Qed.

(** ** More on the driver *)

(** [main] never lets an exception escape: whatever the files hold and
    whatever the library calls answer, it returns normally. *)
Theorem main_never_raises (rt : runtime) (a : args) (w : world) :
  fst (main rt a w) = inr tt.
Proof.
  unfold main, try_except.
  match goal with
  | |- context [match ?m w with _ => _ end] => destruct (m w) as [[e|[]] w']
  end; [|reflexivity].
  destruct e; reflexivity.
Qed.





(** An output path whose directory is missing makes [open] raise
    [FileNotFoundError], which [main] takes for a missing input: with the
    input present, nothing is written and the report names the input file as
    not found. *)
Theorem unwritable_output_reported_as_missing_input
    (rt : runtime) (a : args) (w : world) (bytes : list N) (filename : str) :
  files w !! locate w (a_input_file a) = Some bytes ->
  denied w !! locate w (output_name rt a) = Some (FileNotFoundError filename) ->
  main rt a w
  = (inr tt,
     with_stdout (stdout w ++ misleading_report (a_input_file a) (output_name rt a)) w).
Proof.
  intros Hin Hdenied. unfold main. cbv zeta.
  match goal with
  | |- context [convert_book_to_json rt _ ?o] => change o with (output_name rt a)
  end.
  unfold try_except.
  rewrite bind_run.
  pose proof (convert_book_to_json_outcome rt (a_input_file a) (output_name rt a) w) as Hrun.
  rewrite Hin in Hrun. cbn zeta in Hrun. rewrite Hdenied in Hrun. rewrite Hrun.
  cbn beta iota. rewrite bind_run, !print_run. cbn beta iota.
  unfold with_stdout, misleading_report. cbn [locate files denied stdout].
  rewrite <- !app_assoc. reflexivity.
Qed.

Lemma unwritable_output_reported_as_missing_input_witness :
  files no_directory_world !! locate no_directory_world (S_ "book.txt")
  = Some doc_five_lines
  /\ denied no_directory_world !! locate no_directory_world (S_ "out/book.json")
     = Some (FileNotFoundError (S_ "out/book.json"))
  /\ main small_runtime
       {| a_input_file := S_ "book.txt"; a_output := Some (S_ "out/book.json");
          a_individual := false |} no_directory_world
     = (inr tt,
        with_stdout (misleading_report (S_ "book.txt") (S_ "out/book.json"))
          no_directory_world).
Proof.
  assert (H1 : files no_directory_world !! locate no_directory_world (S_ "book.txt")
               = Some doc_five_lines) by (vm_compute; reflexivity).
  assert (H2 : denied no_directory_world !! locate no_directory_world (S_ "out/book.json")
               = Some (FileNotFoundError (S_ "out/book.json")))
    by (vm_compute; reflexivity).
  split; [exact H1|]. split; [exact H2|].
  apply (unwritable_output_reported_as_missing_input small_runtime
           {| a_input_file := S_ "book.txt"; a_output := Some (S_ "out/book.json");
              a_individual := false |} no_directory_world doc_five_lines
           (S_ "out/book.json") H1 H2).
Defined.

Lemma touches_only_ret {A} P (x : A) : touches_only P (mret x).
Proof. intros w. split; [reflexivity|]. intros id H. exfalso. apply H. reflexivity. Qed.

Lemma touches_only_raise {A} P e : touches_only P (raise (A:=A) e).
Proof. intros w. split; [reflexivity|]. intros id H. exfalso. apply H. reflexivity. Qed.

Lemma touches_only_print P s : touches_only P (print s).
Proof. intros w. split; [reflexivity|]. intros id H. exfalso. apply H. reflexivity. Qed.

Lemma touches_only_read_text P decode path0 : touches_only P (read_text decode path0).
Proof.
  intros w. unfold read_text.
  destruct (files w !! locate w path0) as [bytes|]; [destruct (decode bytes)|];
    (split; [reflexivity|]; intros id H; exfalso; apply H; reflexivity).
Qed.

Lemma touches_only_open_write (P : str -> Prop) path0 :
  P path0 -> touches_only P (open_write path0).
Proof.
  intros HP w. unfold open_write.
  destruct (denied w !! locate w path0).
  - split; [reflexivity|]. intros id H. exfalso. apply H. reflexivity.
  - split; [reflexivity|]. intros id H. cbn [snd files with_files] in H.
    exists path0. split; [exact HP|].
    destruct (decide (locate w path0 = id)) as [Heq|Hne]; [congruence|].
    exfalso. apply H. apply lookup_insert_ne. exact Hne.
Qed.

Lemma touches_only_write_chunk (P : str -> Prop) rt path0 chunk :
  P path0 -> touches_only P (write_chunk rt path0 chunk).
Proof.
  intros HP w. unfold write_chunk.
  destruct (encode_utf8 rt chunk).
  - split; [reflexivity|]. intros id H. cbn [snd files with_files] in H.
    exists path0. split; [exact HP|].
    destruct (decide (locate w path0 = id)) as [Heq|Hne]; [congruence|].
    exfalso. apply H. apply lookup_insert_ne. exact Hne.
  - split; [reflexivity|]. intros id H. exfalso. apply H. reflexivity.
Qed.

Lemma touches_only_bind {A B} P (m : M A) (k : A -> M B) :
  touches_only P m -> (forall x, touches_only P (k x)) -> touches_only P (m ≫= k).
Proof.
  intros Hm Hk w. rewrite bind_run.
  destruct (Hm w) as [Hl Hf]. destruct (m w) as [[e|x] w']; cbn [snd] in *.
  - split; [exact Hl|exact Hf].
  - destruct (Hk x w') as [Hl' Hf']. split; [congruence|].
    intros id H.
    destruct (decide (files w' !! id = files w !! id)) as [Heq|Hne].
    + destruct (Hf' id) as (path & HP & Hid); [rewrite Heq; exact H|].
      exists path. split; [exact HP|]. congruence.
    + apply Hf. exact Hne.
Qed.

Lemma touches_only_try_except {A} P (m : M A) (h : exn -> M A) :
  touches_only P m -> (forall e, touches_only P (h e)) -> touches_only P (try_except m h).
Proof.
  intros Hm Hh w. unfold try_except.
  destruct (Hm w) as [Hl Hf]. destruct (m w) as [[e|x] w']; cbn [snd] in *.
  - destruct (Hh e w') as [Hl' Hf']. split; [congruence|].
    intros id H.
    destruct (decide (files w' !! id = files w !! id)) as [Heq|Hne].
    + destruct (Hf' id) as (path & HP & Hid); [rewrite Heq; exact H|].
      exists path. split; [exact HP|]. congruence.
    + apply Hf. exact Hne.
  - split; [exact Hl|exact Hf].
Qed.

Lemma touches_only_json_dump (P : str -> Prop) rt path0 chunks :
  P path0 -> touches_only P (json_dump rt path0 chunks).
Proof.
  intros HP. unfold json_dump.
  apply touches_only_bind; [apply touches_only_open_write, HP|]. intros _.
  induction chunks as [|chunk rest IH]; cbn [write_chunks].
  - apply touches_only_ret.
  - apply touches_only_bind; [apply touches_only_write_chunk, HP|]. intros _. exact IH.
Qed.

Lemma touches_only_write_sections (P : str -> Prop) rt sections :
  (forall title, P (section_file_name rt title)) ->
  touches_only P (write_sections rt sections).
Proof.
  intros HP. induction sections as [|s rest IH]; cbn [write_sections].
  - apply touches_only_ret.
  - apply touches_only_bind; [apply touches_only_json_dump, HP|]. intros _.
    apply touches_only_bind; [apply touches_only_print|]. intros _. exact IH.
Qed.

Lemma main_touches rt a :
  touches_only
    (fun path => path = output_name rt a
       \/ (a_individual a = true /\ exists title, path = section_file_name rt title))
    (main rt a).
Proof.
  unfold main. fold (output_name rt a).
  apply touches_only_try_except.
  - apply touches_only_bind.
    + unfold convert_book_to_json.
      apply touches_only_bind; [apply touches_only_print|]. intros _.
      apply touches_only_bind.
      { apply touches_only_try_except; [apply touches_only_read_text|].
        intros []; first [apply touches_only_read_text|apply touches_only_raise]. }
      intros content_.
      apply touches_only_bind; [apply touches_only_print|]. intros _.
      apply touches_only_bind; [apply touches_only_print|]. intros _.
      apply touches_only_bind; [apply touches_only_json_dump; left; reflexivity|].
      intros _.
      repeat (apply touches_only_bind; [apply touches_only_print|]; intros _).
      apply touches_only_print.
    + intros _. apply touches_only_bind.
      * destruct (a_individual a) eqn:Hind; [|apply touches_only_ret].
        apply touches_only_bind; [apply touches_only_print|]. intros _.
        apply touches_only_bind; [apply touches_only_read_text|]. intros text.
        apply touches_only_bind.
        { destruct (json_loads_book rt text);
            [apply touches_only_ret|apply touches_only_raise]. }
        intros book_data. apply touches_only_write_sections.
        intros title. right. split; [reflexivity|]. exists title. reflexivity.
      * intros _.
        apply touches_only_bind; [apply touches_only_print|]. intros _.
        apply touches_only_bind; [apply touches_only_print|]. intros _.
        destruct (a_individual a); [apply touches_only_print|apply touches_only_ret].
  - intros [filename|filename| | |].
    + apply touches_only_bind; [apply touches_only_print|]. intros _.
      apply touches_only_print.
    + apply touches_only_print.
    + apply touches_only_print.
    + apply touches_only_print.
    + apply touches_only_print.
Qed.

(** The files [main] can change, files being told apart after the
    resolution of their paths.  A file that the run changes is the one the
    output path names or, with [--individual], one that a path
    [section_<safe title>.json] names.  So the input file holds after the
    run what it held before, unless the output path or such a section path
    names the input file itself (as with [-o] set to the input, which the
    code does not prevent). *)
Theorem main_touches_only_its_outputs (rt : runtime) (a : args) (w : world) :
  (forall id,
     files (snd (main rt a w)) !! id <> files w !! id ->
     id = locate w (output_name rt a)
     \/ (a_individual a = true
         /\ exists title, id = locate w (section_file_name rt title)))
  /\ (locate w (a_input_file a) <> locate w (output_name rt a) ->
      (a_individual a = true ->
       forall title, locate w (a_input_file a) <> locate w (section_file_name rt title)) ->
      files (snd (main rt a w)) !! locate w (a_input_file a)
      = files w !! locate w (a_input_file a)).
Proof.
  assert (Hframe : forall id,
            files (snd (main rt a w)) !! id <> files w !! id ->
            id = locate w (output_name rt a)
            \/ (a_individual a = true
                /\ exists title, id = locate w (section_file_name rt title))).
  { intros id H. destruct (main_touches rt a w) as [_ Hf].
    destruct (Hf id H) as (path & [->|[Hind [title ->]]] & ->); [left; reflexivity|].
    right. split; [exact Hind|]. exists title. reflexivity. }
  split; [exact Hframe|]. intros Hout Hsec.
  destruct (decide (files (snd (main rt a w)) !! locate w (a_input_file a)
                    = files w !! locate w (a_input_file a))) as [Heq|Hne];
    [exact Heq|].
  exfalso. destruct (Hframe _ Hne) as [Heq|[Hind [title Heq]]].
  - exact (Hout Heq).
  - exact (Hsec Hind title Heq).
Qed.

Lemma main_touches_only_its_outputs_witness :
  locate book_world (S_ "book.txt") <> locate book_world (S_ "book_structured.json")
  /\ files (snd (main small_runtime
                   {| a_input_file := S_ "book.txt"; a_output := None;
                      a_individual := false |} book_world))
       !! locate book_world (S_ "book.txt")
     = files book_world !! locate book_world (S_ "book.txt").
Proof.
  assert (H : locate book_world (S_ "book.txt")
              <> locate book_world (S_ "book_structured.json"))
    by (vm_compute; discriminate).
  split; [exact H|].
  apply (main_touches_only_its_outputs small_runtime
           {| a_input_file := S_ "book.txt"; a_output := None; a_individual := false |}
           book_world).
  - exact H.
  - intros Hind. discriminate Hind.
Defined.

Lemma sub_sep_runs_Forall (P : char -> Prop) s :
  P ch_underscore ->
  Forall (fun c => ((c =? 45)%N || is_space c) = false -> P c) s ->
  Forall P (sub_sep_runs s).
Proof.
  intros Hu. induction 1 as [|c s Hc Hs IH]; [constructor|]. cbn [sub_sep_runs].
  destruct ((c =? 45)%N || is_space c) eqn:Hsep.
  - destruct s as [|c' s]; [repeat constructor; exact Hu|].
    destruct ((c' =? 45)%N || is_space c'); [exact IH|constructor; [exact Hu|exact IH]].
  - constructor; [apply Hc; reflexivity|exact IH].
Qed.

(** A per-section file name is built from word characters only: whatever the
    title, the part between [section_] and [.json] has no path separator, no
    dot, no hyphen and no plain space, so the file lands in the working
    directory. *)
Theorem safe_title_word_characters (rt : runtime) (title : str) :
  Forall (fun c => is_word (rt_unicode rt) c = true) (safe_title rt title)
  /\ Forall (fun c => c <> 47%N /\ c <> 92%N /\ c <> 46%N /\ c <> 45%N /\ c <> ch_space)
       (safe_title rt title).
Proof.
  assert (H : Forall (fun c => is_word (rt_unicode rt) c = true) (safe_title rt title)).
  { unfold safe_title. apply sub_sep_runs_Forall; [reflexivity|].
    apply Forall_forall. intros c Hc Hsep.
    apply list_elem_of_In, filter_In in Hc as [_ Hk].
    apply orb_false_iff in Hsep as [H45 Hsp]. rewrite H45, Hsp, !orb_false_r in Hk.
    exact Hk. }
  split; [exact H|]. eapply Forall_impl; [exact H|].
  intros c Hc. repeat split; intros ->; vm_compute in Hc; discriminate.
Qed.

(** ** More on [chunk_text] and the ingestion loop *)

Lemma join_snoc sep cur w :
  join sep (cur ++ [w]) = match cur with [] => w | _ => join sep cur ++ sep ++ w end.
Proof.
  induction cur as [|p cur IH]; [reflexivity|].
  destruct cur as [|q cur]; [reflexivity|].
  change (join sep ((p :: q :: cur) ++ [w])) with (p ++ sep ++ join sep ((q :: cur) ++ [w])).
  rewrite IH. change (join sep (p :: q :: cur)) with (p ++ sep ++ join sep (q :: cur)).
  rewrite <- !app_assoc. reflexivity.
Qed.

Lemma len_join_snoc cur w :
  cur <> [] ->
  len (join [ch_space] (cur ++ [w])) = len (join [ch_space] cur) + 1 + len w.
Proof.
  intros Hne. rewrite join_snoc. destruct cur; [congruence|].
  unfold len. rewrite !length_app. simpl. lia.
Qed.

Lemma join_good_nonempty cur :
  cur <> [] -> Forall good_word cur -> join [ch_space] cur <> [].
Proof.
  destruct cur as [|w cur]; [congruence|]. intros _ H.
  apply Forall_cons in H as [[Hw _] _].
  destruct cur; cbn [join]; [exact Hw|]. destruct w; [congruence|discriminate].
Qed.

Lemma flush_ok n chunks cur size :
  Forall good_word cur ->
  (cur <> [] -> (Z.of_nat (len (join [ch_space] cur)) <= size)%Z
                /\ (2 <= length cur -> (size <= n)%Z)) ->
  Forall (chunk_ok n) chunks ->
  Forall (chunk_ok n) (flush (chunks, cur)).
Proof.
  intros Hgood Hinv Hchunks. unfold flush. cbn [fst snd].
  destruct cur as [|w tl]; [exact Hchunks|].
  apply Forall_app. split; [exact Hchunks|]. constructor; [|constructor]. split.
  - apply join_good_nonempty; [discriminate|exact Hgood].
  - destruct Hinv as [Hlen Hsize]; [discriminate|].
    destruct tl as [|w2 tl].
    + right. apply Forall_cons in Hgood as [[_ Hw] _]. exact Hw.
    + left. assert (H : 2 <= length (w :: w2 :: tl)) by (simpl; lia).
      specialize (Hsize H). lia.
Qed.

Lemma chunk_loop_ok n words :
  Forall good_word words ->
  forall chunks cur size,
    Forall good_word cur ->
    (0 <= size)%Z ->
    (cur <> [] -> (Z.of_nat (len (join [ch_space] cur)) <= size)%Z
                  /\ (2 <= length cur -> (size <= n)%Z)) ->
    Forall (chunk_ok n) chunks ->
    Forall (chunk_ok n) (flush (chunk_loop n words chunks cur size)).
Proof.
  induction 1 as [|word rest Hword _ IH];
    intros chunks cur size Hgood Hpos Hinv Hchunks; cbn [chunk_loop].
  - apply (flush_ok n chunks cur size); assumption.
  - assert (Hfirst : Forall (chunk_ok n)
              (flush (chunk_loop n rest chunks ([] ++ [word])
                        (size + Z.of_nat (len word) + 1)))).
    { apply IH; [constructor; [exact Hword|constructor]|lia| |exact Hchunks].
      intros _. cbn [app join length]. split; [lia|lia]. }
    destruct cur as [|w tl]; [rewrite andb_false_r; exact Hfirst|].
    rewrite andb_true_r.
    destruct (Z.gtb_spec (size + Z.of_nat (len word) + 1) n) as [Hgt|Hle].
    + apply IH; [constructor; [exact Hword|constructor]|lia| |].
      * intros _. cbn [join length]. split; [lia|lia].
      * exact (flush_ok n chunks (w :: tl) size Hgood Hinv Hchunks).
    + apply IH; [|lia| |exact Hchunks].
      * apply Forall_app. split; [exact Hgood|constructor; [exact Hword|constructor]].
      * intros _. destruct Hinv as [Hlen _]; [discriminate|].
        rewrite len_join_snoc by discriminate. split; [lia|]. intros _. lia.
Qed.

(** Every chunk is non-empty and either fits in [chunk_size] characters or
    is a single word (a word longer than the limit is never broken). *)
Theorem chunks_fit_or_single_word (text : str) (chunk_size : Z) :
  Forall (chunk_ok chunk_size) (chunk_text text chunk_size).
Proof.
  unfold chunk_text.
  pose proof (chunk_loop_ok chunk_size (split text) (split_good text) [] [] 0%Z
                (List.Forall_nil _)) as H.
  unfold flush in H.
  destruct (chunk_loop chunk_size (split text) [] [] 0) as [chunks cur].
  cbn [fst snd] in H. destruct cur; apply H; try constructor; try congruence; lia.
Qed.

Lemma len_join_app_le a b :
  len (join [ch_space] a) <= len (join [ch_space] (a ++ b)).
Proof.
  induction b as [|w b IH] using rev_ind; [rewrite app_nil_r; reflexivity|].
  rewrite app_assoc. destruct (a ++ b) as [|p l] eqn:Hab.
  - apply app_eq_nil in Hab as [-> _]. simpl. lia.
  - rewrite len_join_snoc by discriminate. lia.
Qed.

Lemma chunk_loop_fits n words :
  forall cur size,
    (cur = [] -> size = 0%Z) ->
    (cur <> [] -> size = (Z.of_nat (len (join [ch_space] cur)) + 1)%Z) ->
    (Z.of_nat (len (join [ch_space] (cur ++ words))) + 1 <= n)%Z ->
    chunk_loop n words [] cur size = ([], cur ++ words).
Proof.
  induction words as [|word rest IH]; intros cur size H0 H1 Hfit; cbn [chunk_loop].
  - rewrite app_nil_r. reflexivity.
  - replace (cur ++ word :: rest) with ((cur ++ [word]) ++ rest) in *
      by (rewrite <- app_assoc; reflexivity).
    pose proof (len_join_app_le (cur ++ [word]) rest) as Hmono.
    assert (Hnext : (size + Z.of_nat (len word) + 1
                     = Z.of_nat (len (join [ch_space] (cur ++ [word]))) + 1)%Z).
    { destruct cur as [|w tl].
      - rewrite H0 by reflexivity. cbn [app join]. lia.
      - rewrite H1, len_join_snoc by discriminate. lia. }
    assert (Hcond : ((size + Z.of_nat (len word) + 1 >? n)%Z
                     && match cur with [] => false | _ => true end) = false).
    { destruct (Z.gtb_spec (size + Z.of_nat (len word) + 1) n); [lia|reflexivity]. }
    rewrite Hcond. apply IH.
    + intros Hnil. destruct cur; discriminate.
    + intros _. exact Hnext.
    + exact Hfit.
Qed.

(** A text whose words, joined by single spaces, take fewer than
    [chunk_size] characters comes back as that one joined chunk; a text
    without words gives no chunk. *)
Theorem chunk_text_single_chunk (text : str) (chunk_size : Z) :
  (Z.of_nat (len (join [ch_space] (split text))) + 1 <= chunk_size)%Z ->
  chunk_text text chunk_size
  = match split text with
    | [] => []
    | _ => [ join [ch_space] (split text) ]
    end.
Proof.
  intros Hfit. unfold chunk_text.
  rewrite (chunk_loop_fits chunk_size (split text) [] 0%Z); try congruence.
  - cbn [app]. destruct (split text); reflexivity.
  - exact Hfit.
Qed.

Lemma chunk_text_single_chunk_witness :
  (Z.of_nat (len (join [ch_space] (split (S_ " aa  bb ")))) + 1 <= 6)%Z
  /\ chunk_text (S_ " aa  bb ") 6 = [ S_ "aa bb" ].
Proof.
  assert (H : (Z.of_nat (len (join [ch_space] (split (S_ " aa  bb ")))) + 1 <= 6)%Z)
    by (vm_compute; discriminate).
  split; [exact H|].
  rewrite (chunk_text_single_chunk (S_ " aa  bb ") 6 H). vm_compute. reflexivity.
Defined.

Lemma chunk_text_words text chunk_size :
  concat (map split (chunk_text text chunk_size)) = split text.
Proof.
  unfold chunk_text.
  pose proof (chunk_loop_words chunk_size (split text) (split_good text) [] [] 0%Z
                (List.Forall_nil _)) as H.
  unfold flush in H. cbn [map concat app] in H.
  destruct (chunk_loop chunk_size (split text) [] [] 0) as [chunks cur].
  cbn [fst snd] in H. destruct cur; exact H.
Qed.

(** The ingestion loop loses no word: the words of the gathered chunks are,
    in order, the words of the title line and content of each selected
    section (type [story], title equal to the preferred one); all other
    sections contribute nothing. *)
Theorem collect_chunks_words (preferred : str) (sections : list section) :
  concat (map split (collect_chunks preferred sections))
  = concat (map (fun s => split (titled_text s))
              (List.filter (selected preferred) sections)).
Proof.
  induction sections as [|s rest IH]; [reflexivity|].
  cbn [collect_chunks List.filter]. unfold selected at 1, is_story.
  destruct (s_type s); cbn [andb]; [|exact IH].
  destruct (bool_decide (s_title s = preferred)); [|exact IH].
  rewrite map_app, concat_app, chunk_text_words, IH. reflexivity.
Qed.

Lemma collect_chunks_none preferred sections :
  Forall (fun s => s_type s = story -> s_title s <> preferred) sections ->
  collect_chunks preferred sections = [].
Proof.
  induction 1 as [|s rest Hs _ IH]; [reflexivity|]. cbn [collect_chunks].
  destruct (s_type s); [|exact IH].
  rewrite bool_decide_eq_false_2 by (apply Hs; reflexivity). exact IH.
Qed.

Lemma collect_chunks_unmatched
    (db : unicode_db) (preferred : str) (content_ : str) :
  first_match (section_patterns db) preferred = None ->
  collect_chunks preferred (extract_content_sections db content_) = [].
Proof.
  intros Hnone. apply collect_chunks_none, Forall_forall. intros s Hs Hstory Htitle.
  pose proof (story_segment_from_heading db content_ s Hs Hstory)
    as (_ & m & raw & _ & _ & _ & [p Hp] & _).
  rewrite Htitle, Hnone in Hp. discriminate.
Qed.

(** Run on the converter's output, the ingestion loop gathers chunks only
    for a preferred title that one of the fallback detector's patterns
    matches.  The title the script ships with, Story, matches none (a
    heading is Story followed by a number, or longer), so for every document
    nothing is gathered. *)
Theorem unmatched_title_collects_nothing
    (db : unicode_db) (preferred : str) (content_ : str) :
  first_match (section_patterns db) preferred = None ->
  collect_chunks preferred (extract_content_sections db content_) = [].
Proof. apply collect_chunks_unmatched. Qed.

Lemma unmatched_title_collects_nothing_witness :
  first_match (section_patterns ascii_db) preferred_story = None
  /\ all_chunks (extract_content_sections ascii_db doc_two_chapters) = [].
Proof.
  assert (H : first_match (section_patterns ascii_db) preferred_story = None)
    by (vm_compute; reflexivity).
  split; [exact H|].
  apply (unmatched_title_collects_nothing ascii_db preferred_story doc_two_chapters H).
Defined.

(** ** The ingestion loop and the knowledge base *)

Lemma inserted_app e1 e2 : inserted (e1 ++ e2) = inserted e1 ++ inserted e2.
Proof. unfold inserted. apply omap_app. Qed.

Lemma slept_app e1 e2 : slept (e1 ++ e2) = slept e1 + slept e2.
Proof.
  unfold slept. induction e1 as [|e e1 IH]; [reflexivity|].
  cbn [app foldr]. rewrite IH. destruct e; lia.
Qed.

Section IngestionFacts.
Variable B : Type.
Variable rag_insert : B -> list str -> B * option str.
Variable str_lower : str -> str.

Lemma wait_events total i :
  let wait := if i + 1 <? total
              then [ Printed (ch_hourglass :: S_ " Waiting " ++ str_of_nat delay_between_chunks
                              ++ S_ " seconds before next chunk...");
                     Slept delay_between_chunks ]
              else [] in
  inserted wait = [] /\ slept wait = (if i + 1 <? total then 3 else 0).
Proof. cbn zeta. destruct (i + 1 <? total); split; reflexivity. Qed.

Lemma process_chunks_attempts total i chunks b :
  exists reps : list nat,
    Forall (fun r => r = 1 \/ r = 2) reps
    /\ length reps <= length chunks
    /\ inserted (snd (process_chunks B rag_insert str_lower total i chunks b))
       = concat (zip_with (fun r c => replicate r [c]) reps chunks)
    /\ slept (snd (process_chunks B rag_insert str_lower total i chunks b))
       <= 18 * length chunks.
Proof.
  revert i b. induction chunks as [|chunk rest IH]; intros i b.
  - exists []. cbn. repeat split; [constructor|lia|lia].
  - cbn [process_chunks]. destruct (wait_events total i) as [Hwi Hws]. cbn zeta in Hwi, Hws.
    assert (Hnext : forall r b' events,
              (r = 1 \/ r = 2) ->
              inserted events = replicate r [chunk] ->
              slept events <= 15 ->
              exists reps : list nat,
                Forall (fun r => r = 1 \/ r = 2) reps
                /\ length reps <= length (chunk :: rest)
                /\ inserted (snd (let '(b'', events') :=
                                    process_chunks B rag_insert str_lower total (S i) rest b' in
                                  (b'', events ++ (if i + 1 <? total
                                     then [ Printed (ch_hourglass :: S_ " Waiting "
                                              ++ str_of_nat delay_between_chunks
                                              ++ S_ " seconds before next chunk...");
                                            Slept delay_between_chunks ]
                                     else []) ++ events')))
                   = concat (zip_with (fun r c => replicate r [c]) reps (chunk :: rest))
                /\ slept (snd (let '(b'', events') :=
                                 process_chunks B rag_insert str_lower total (S i) rest b' in
                               (b'', events ++ (if i + 1 <? total
                                  then [ Printed (ch_hourglass :: S_ " Waiting "
                                           ++ str_of_nat delay_between_chunks
                                           ++ S_ " seconds before next chunk...");
                                         Slept delay_between_chunks ]
                                  else []) ++ events')))
                   <= 18 * length (chunk :: rest)).
    { intros r b' events Hr Hins Hsl.
      destruct (IH (S i) b') as (reps & Hreps & Hlen & Hi & Hs).
      destruct (process_chunks B rag_insert str_lower total (S i) rest b') as [b'' events'].
      cbn [snd] in *. exists (r :: reps).
      split; [constructor; assumption|]. split; [simpl; lia|].
      rewrite !inserted_app, !slept_app, Hwi, Hws, Hins, Hi. cbn [zip_with concat app length].
      split; [reflexivity|]. destruct (i + 1 <? total); lia. }
    destruct (rag_insert b [chunk]) as [b1 [e|]].
    + destruct (contains (S_ "rate limit") (str_lower e)).
      * destruct (rag_insert b1 [chunk]) as [b2 [retry_e|]].
        -- exists [2]. cbn [snd]. split; [repeat constructor; right; reflexivity|].
           split; [simpl; lia|]. split; [reflexivity|]. cbn. lia.
        -- apply (Hnext 2); [right; reflexivity|reflexivity|cbn; lia].
      * apply (Hnext 1); [left; reflexivity|reflexivity|cbn; lia].
    + apply (Hnext 1); [left; reflexivity|reflexivity|cbn; lia].
Qed.

Lemma process_chunks_all_succeed total i chunks b :
  (forall b' docs, snd (rag_insert b' docs) = None) ->
  total = i + length chunks ->
  fst (process_chunks B rag_insert str_lower total i chunks b)
  = foldl (fun b' c => fst (rag_insert b' [c])) b chunks
  /\ inserted (snd (process_chunks B rag_insert str_lower total i chunks b))
     = map (fun c => [c]) chunks
  /\ slept (snd (process_chunks B rag_insert str_lower total i chunks b))
     = 3 * (length chunks - 1).
Proof.
  intros Hok. revert i b. induction chunks as [|chunk rest IH]; intros i b Htotal.
  - cbn. auto.
  - cbn [process_chunks foldl]. destruct (wait_events total i) as [Hwi Hws].
    cbn zeta in Hwi, Hws.
    pose proof (Hok b [chunk]) as Hnone.
    destruct (rag_insert b [chunk]) as [b1 [e|]]; [discriminate|]. cbn [fst].
    destruct (IH (S i) b1) as (Hb & Hi & Hs); [simpl in Htotal; lia|].
    destruct (process_chunks B rag_insert str_lower total (S i) rest b1) as [b'' events'].
    cbn [fst snd] in *. split; [exact Hb|].
    rewrite !inserted_app, !slept_app, Hwi, Hws, Hi, Hs. split; [reflexivity|].
    cbn [length] in *. destruct (Nat.ltb_spec (i + 1) total); cbn; lia.
Qed.

End IngestionFacts.

(** Whatever the knowledge base answers, the calls of [rag.insert] follow
    the chunk order: for some prefix of the chunks, each chunk of the prefix
    is passed once or twice (one retry at most) as a one-item list, and no
    other call is made; the script sleeps at most 18 seconds per chunk. *)
Theorem ingestion_attempts_are_bounded
    (B : Type) (rag_insert : B -> list str -> B * option str)
    (str_lower : str -> str) (chunks : list str) (b : B) :
  exists reps : list nat,
    Forall (fun r => r = 1 \/ r = 2) reps
    /\ length reps <= length chunks
    /\ inserted (snd (process_chunks B rag_insert str_lower (length chunks) 0 chunks b))
       = concat (zip_with (fun r c => replicate r [c]) reps chunks)
    /\ slept (snd (process_chunks B rag_insert str_lower (length chunks) 0 chunks b))
       <= 18 * length chunks.
Proof. apply process_chunks_attempts. Qed.

(** With a knowledge base that never raises, every chunk is passed exactly
    once, in order, the final state is the one these calls produce, and the
    script sleeps 3 seconds between consecutive chunks and not after the
    last. *)
Theorem ingestion_without_errors
    (B : Type) (rag_insert : B -> list str -> B * option str)
    (str_lower : str -> str) (chunks : list str) (b : B) :
  (forall b' docs, snd (rag_insert b' docs) = None) ->
  fst (process_chunks B rag_insert str_lower (length chunks) 0 chunks b)
  = foldl (fun b' c => fst (rag_insert b' [c])) b chunks
  /\ inserted (snd (process_chunks B rag_insert str_lower (length chunks) 0 chunks b))
     = map (fun c => [c]) chunks
  /\ slept (snd (process_chunks B rag_insert str_lower (length chunks) 0 chunks b))
     = 3 * (length chunks - 1).
Proof. intros Hok. apply process_chunks_all_succeed; [exact Hok|reflexivity]. Qed.

Lemma ingestion_without_errors_witness :
  (forall b' docs, snd (store_insert b' docs) = None)
  /\ fst (process_chunks _ store_insert (fun s => s) 2 0 [S_ "ab"; S_ "cd"] [])
     = [ [S_ "ab"]; [S_ "cd"] ].
Proof.
  assert (H : forall b' docs, snd (store_insert b' docs) = None) by reflexivity.
  split; [exact H|].
  destruct (ingestion_without_errors _ store_insert (fun s => s) [S_ "ab"; S_ "cd"] [] H)
    as [Hfst _].
  exact Hfst.
Defined.

(** The two programs together.  On the sections the converter produces for
    any document, the script as shipped (preferred title Story) gathers no
    chunk, so it calls [rag.insert] not once, never sleeps, and leaves the
    knowledge base as it was. *)
Theorem shipped_script_inserts_nothing
    (B : Type) (rag_insert : B -> list str -> B * option str)
    (str_lower : str -> str) (db : unicode_db) (content_ : str) (b : B) :
  let run := run_script B rag_insert str_lower (extract_content_sections db content_) b in
  all_chunks (extract_content_sections db content_) = []
  /\ fst run = b
  /\ inserted (snd run) = []
  /\ slept (snd run) = 0.
Proof.
  assert (Hnone : all_chunks (extract_content_sections db content_) = []).
  { unfold all_chunks. apply collect_chunks_unmatched. vm_compute. reflexivity. }
  assert (Hprints : forall sections,
            inserted (map Printed (collect_prints preferred_story sections)) = []
            /\ slept (map Printed (collect_prints preferred_story sections)) = 0).
  { intros sections. induction (collect_prints preferred_story sections) as [|p l [IH1 IH2]];
      [split; reflexivity|]. split; [exact IH1|exact IH2]. }
  cbn zeta. unfold run_script. rewrite Hnone. cbn [process_chunks length].
  split; [reflexivity|]. split; [reflexivity|].
  destruct (Hprints (extract_content_sections db content_)) as [H1 H2].
  cbn [snd]. rewrite !inserted_app, !slept_app, H1, H2. split; reflexivity.
Qed.

(** Every whitespace character of a normalised text is a plain space: no
    newline, tab or other separator survives [clean_text]. *)
Theorem clean_text_leaves_only_plain_spaces (db : unicode_db) (text : str) :
  Forall (fun c => is_space c = true -> c = ch_space) (clean_text db text).
Proof. apply clean_text_only_plain_spaces. Qed.
